(** * Keep ECDSA client: event handlers and liquidation recovery

    A shallow embedding of the keep ECDSA client's coordinator
    ([pkg/client/client.go]) and of the liquidation-recovery address
    broadcast ([pkg/ecdsa/tss], [BroadcastRecoveryAddress]).

    Go functions returning [(T, error)] become functions returning
    [res T]; the results of the host chain, the TSS node, the registry and
    the Bitcoin helpers are read from explicit oracle records, one field per
    call site.  A handler that logs and returns on an error is written in a
    small writer/early-exit monad [M] whose trace records the observable
    actions (unregistering a keep, invoking signature calculation, logs). *)

From Stdlib Require Import ZArith Lia String List Sorting Permutation.
From stdpp Require Import base gmap strings list sorting.

Import ListNotations.
Open Scope Z_scope.

(** ** Go values *)

(** A Go [(T, error)] pair: exactly one of the value and the error is
    meaningful. *)
Inductive res (A : Type) : Type :=
| Ok (a : A)
| Err (e : string).
Arguments Ok {A} a.
Arguments Err {A} e.

(** Go's [context.Context.Err()] once the context is done. *)
Inductive ctxErr : Type :=
| Canceled
| DeadlineExceeded.

(** [math.MaxInt32], the initial value of the fee minimum. *)
Definition MaxInt32 : Z := 2147483647.

(** ** Go's [sort.Strings]

    Go's string comparison is byte-wise lexicographic, which is
    [String.compare] on ASCII strings.  The sorted permutation of a list of
    strings is unique, so any sorting algorithm computes [sort.Strings]; we
    use stdpp's merge sort. *)
Definition str_le (a b : string) : Prop := String.leb a b = true.

#[global] Instance str_le_dec : RelDecision str_le.
Proof. intros a b. unfold str_le. apply _. Defined.

#[global] Instance str_le_total : Total str_le.
Proof. intros a b. unfold str_le. apply String.leb_total. Qed.

Definition sort_Strings (l : list string) : list string := merge_sort str_le l.

(** * Liquidation recovery: [BroadcastRecoveryAddress] (package [tss]) *)
Module Recovery.

(** A member ID is the byte serialisation of the member's public key. *)
Definition MemberID := string.

(** [type recoveryInfo struct { btcRecoveryAddress string; maxFeePerVByte int32 }] *)
Record recoveryInfo := mkRecoveryInfo {
  btcRecoveryAddress : string;
  maxFeePerVByte : Z
}.

(** [LiquidationRecoveryAnnounceMessage] *)
Record announceMessage := mkAnnounce {
  SenderID : MemberID;
  BtcRecoveryAddress : string;
  MaxFeePerVByte : Z
}.

(** Errors returned by [BroadcastRecoveryAddress] and
    [ValidateReceivedBtcAddress]; the fields are the values formatted into
    the Go error message. *)
Inductive error :=
| ErrDecode (address chain : string)
    (* "failed to decode address [%s] for chain [%s]" *)
| ErrNotForNet (address chain : string)
    (* "address [%s] is not a valid btc address for chain [%s]" *)
| ErrValidate (address member : string) (inner : error)
    (* "failed to validate btc address [%s] received from [%s] ..." *)
| ErrTimeout
    (* "waiting for btc recovery addresses timed out after: [2m]" *).

(** Log lines of [BroadcastRecoveryAddress]. *)
Inductive log :=
| LogConvertFailed                 (* could not convert member ID to address *)
| LogMissing (memberAddress : string)  (* member [%s] has not supplied ... *)
| LogGathered.                     (* successfully gathered all btc addresses *)

(** [chaincfg.Params], as far as the validation reads it. *)
Record chainParams := mkParams { Name : string }.

Section Broadcast.

(** [memberIDToAddress(memberID, pubKeyToAddressFn)]: unmarshal the member
    public key and apply the host chain's [PublicKeyToAddress]; fails when
    the bytes are not a public key. *)
Variable memberIDToAddress : MemberID -> res string.

(** [btcutil.DecodeAddress] and [Address.IsForNet]. *)
Variable addr : Type.
Variable DecodeAddress : string -> chainParams -> res addr.
Variable IsForNet : addr -> chainParams -> bool.

(** [ValidateReceivedBtcAddress] *)
Definition ValidateReceivedBtcAddress (btcAddress : string) (p : chainParams)
    : option error :=
  match DecodeAddress btcAddress p with
  | Err _ => Some (ErrDecode btcAddress (Name p))
  | Ok decoded =>
      if IsForNet decoded p then None
      else Some (ErrNotForNet btcAddress (Name p))
  end.

(** The body of [case msg := <-msgInChan]: the loop over
    [group.groupMemberIDs] records the message under the first member whose
    ID equals the sender (both branches [break]). *)
Fixpoint recordMessage (members : list MemberID)
    (m : gmap string recoveryInfo) (msg : announceMessage)
    : gmap string recoveryInfo :=
  match members with
  | [] => m
  | memberID :: rest =>
      if String.eqb (SenderID msg) memberID then
        match memberIDToAddress memberID with
        | Err _ => m
        | Ok memberAddress =>
            <[memberAddress := mkRecoveryInfo (BtcRecoveryAddress msg)
                                              (MaxFeePerVByte msg)]> m
        end
      else recordMessage rest m msg
  end.

(** The receiving goroutine, run over the messages delivered before the
    context is done, in delivery order.  After each message it compares
    [len(memberRecoveryInfo)] with [len(group.groupMemberIDs)] and cancels
    the context on equality; the boolean says whether it did. *)
Fixpoint receiveLoop (members : list MemberID)
    (m : gmap string recoveryInfo) (msgs : list announceMessage)
    : gmap string recoveryInfo * bool :=
  match msgs with
  | [] => (m, false)
  | msg :: rest =>
      let m' := recordMessage members m msg in
      if Nat.eqb (size m') (length members) then (m', true)
      else receiveLoop members m' rest
  end.

(** [case context.DeadlineExceeded]: log every member without an entry. *)
Fixpoint logMissing (members : list MemberID) (m : gmap string recoveryInfo)
    : list log :=
  match members with
  | [] => []
  | memberID :: rest =>
      match memberIDToAddress memberID with
      | Err _ => LogConvertFailed :: logMissing rest m
      | Ok memberAddress =>
          match m !! memberAddress with
          | Some _ => logMissing rest m
          | None => LogMissing memberAddress :: logMissing rest m
          end
      end
  end.

(** [case context.Canceled]: the [range] over the map, validating each
    address, appending it, and keeping the minimum fee. *)
Fixpoint collect (p : chainParams) (entries : list (string * recoveryInfo))
    (retrievalAddresses : list string) (fee : Z)
    : error + (list string * Z) :=
  match entries with
  | [] => inr (retrievalAddresses, fee)
  | (memberID, ri) :: rest =>
      match ValidateReceivedBtcAddress (btcRecoveryAddress ri) p with
      | Some e => inl (ErrValidate (btcRecoveryAddress ri) memberID e)
      | None =>
          collect p rest (retrievalAddresses ++ [btcRecoveryAddress ri])
            (if maxFeePerVByte ri <? fee then maxFeePerVByte ri else fee)
      end
  end.

(** [BroadcastRecoveryAddress].  [msgs] are the announcements delivered
    before the context is done; [ended] is what ended the context when the
    receiving goroutine did not cancel it first: [DeadlineExceeded] for the
    2-minute timeout (or a parent deadline), [Canceled] for a cancellation
    of the parent context.  The map is ranged in [map_to_list] order (Go's
    order is unspecified; the results below do not depend on it). *)
Definition BroadcastRecoveryAddress (p : chainParams)
    (members : list MemberID) (msgs : list announceMessage) (ended : ctxErr)
    : list log * (error + (list string * Z)) :=
  let (m, completed) := receiveLoop members ∅ msgs in
  match (if completed then Canceled else ended) with
  | DeadlineExceeded => (logMissing members m, inl ErrTimeout)
  | Canceled =>
      ([LogGathered],
       match collect p (map_to_list m) [] MaxInt32 with
       | inl e => inl e
       | inr (retrievalAddresses, fee) =>
           inr (sort_Strings retrievalAddresses, fee)
       end)
  end.

End Broadcast.
End Recovery.

(** * The client coordinator ([pkg/client/client.go]) *)
Module Client.

Import Recovery.

(** A 32-byte digest, as a number. *)
Definition Digest := Z.

(** [const blockConfirmations = 12] *)
Definition blockConfirmations : Z := 12.

(** The chain predicates re-evaluated after the confirmation wait. *)
Inductive predicate :=
| PIsActive                               (* keep.IsActive() *)
| PIsAwaitingSignature (d : Digest)       (* keep.IsAwaitingSignature(d) *)
| PIsAwaitingSignatureAndActive (d : Digest).
    (* isAwaitingSignature && isActive *)

Inductive level := Debug | Info | Warning | Error.

(** Observable actions of the handlers. *)
Inductive event :=
| EConfirmed (startBlock height : Z) (p : predicate) (v : bool)
    (* the confirmation wait reached [height] and the predicate gave [v] *)
| EUnregisterKeep                         (* keepsRegistry.UnregisterKeep *)
| ECalculateSignature (d : Digest)        (* tssNode.CalculateSignature *)
| ESigningCompleted (d : Digest)          (* NotifySigningCompleted *)
| EClosingCompleted                       (* NotifyClosingCompleted *)
| ETerminatingCompleted                   (* NotifyTerminatingCompleted *)
| EConstructUnsignedTransaction (prevHash : string) (prevIndex prevValue : Z)
    (fee : Z) (outputs : list string)     (* recovery.ConstructUnsignedTransaction *)
| ERecoverySignature (sighash : list Z)   (* signer.CalculateSignature *)
| EGenerateSigner                         (* generateSignerForKeep *)
| ERegisterSigner                         (* keepsRegistry.RegisterSigner *)
| EMonitorSigningRequests | EMonitorKeepClosed | EMonitorKeepTerminated
| EKeepChannelSignal                      (* keepClosed / keepTerminated <- event *)
| EGenerateKeyForKeep (keepID : string)   (* go generateKeyForKeep(..., keep, ...) *)
| ELog (lvl : level) (msg : string)
| EPanic (msg : string).

(** ** A writer monad with early return

    [M A] is the trace of a handler fragment and [Some a] when it falls
    through with [a], [None] when the Go code [return]s. *)
Definition M (A : Type) : Type := list event * option A.

Definition ret {A} (a : A) : M A := ([], Some a).

Definition bind {A B} (m : M A) (f : A -> M B) : M B :=
  match m with
  | (l, None) => (l, None)
  | (l, Some a) => let (l', r) := f a in (l ++ l', r)
  end.

Notation "x <- m ;; k" := (bind m (fun x => k))
  (at level 100, m at next level, right associativity).
Notation "m ;;; k" := (bind m (fun _ => k))
  (at level 100, right associativity).

Definition emit (e : event) : M unit := ([e], Some tt).

(** [logger.X(msg); return] *)
Definition stop {A} (lvl : level) (msg : string) : M A := ([ELog lvl msg], None).

(** [v, err := call(); if err != nil { logger.Errorf(msg); return }] *)
Definition try_ {A} (r : res A) (msg : string) : M A :=
  match r with
  | Ok a => ret a
  | Err _ => stop Error msg
  end.

(** [defer f()]: [f] runs on every way out of the function. *)
Definition defer {A} (e : event) (m : M A) : M A := (fst m ++ [e], snd m).

(** ** Collaborators outside this file *)

(** Modelled from the spec: [ethlike.WaitForBlockConfirmations]
    (ReorgConfirmer, spec 4.3): wait until the current block is at least
    [startBlock + blockConfirmations], then re-evaluate the state check
    against the chain at that height and return its value; fail only if the
    chain client fails. *)
Definition WaitForBlockConfirmations (WaitForBlockHeight : Z -> res unit)
    (startBlock confirmations : Z) (p : predicate)
    (stateCheck : Z -> res bool) : M (res bool) :=
  let blockHeight := startBlock + confirmations in
  match WaitForBlockHeight blockHeight with
  | Err e => ret (Err e)
  | Ok _ =>
      match stateCheck blockHeight with
      | Err e => ret (Err e)
      | Ok v => ([EConfirmed startBlock blockHeight p v], Some (Ok v))
      end
  end.

(** Modelled from the spec: [utils.DoWithDefaultRetry] (RetryRunner,
    spec 4.4): re-invoke [op] on error until it returns success or the
    deadline elapses.  [attempts] is the number of re-invocations that start
    before the deadline; attempt [i] sees the chain as [op i] does.  The
    result is the trace of all attempts and the error of the last one. *)
Fixpoint DoWithDefaultRetry (op : nat -> list event * option string)
    (i attempts : nat) : list event * option string :=
  let (tr, err) := op i in
  match err, attempts with
  | None, _ => (tr, None)
  | Some e, O => (tr, Some e)
  | Some _, S n =>
      let (tr', r) := DoWithDefaultRetry op (S i) n in (tr ++ tr', r)
  end.

(** ** Go library helpers used by the recovery handler *)

(** [hex.EncodeToString] *)
Definition hexDigit (n : Z) : Ascii.ascii :=
  Ascii.ascii_of_nat (Z.to_nat (if n <? 10 then 48 + n else 87 + n)).

Fixpoint EncodeToString (bs : list Z) : string :=
  match bs with
  | [] => EmptyString
  | b :: rest =>
      String (hexDigit (b / 16)) (String (hexDigit (b mod 16)) (EncodeToString rest))
  end.

(** [binary.LittleEndian.Uint32] *)
Definition LittleEndianUint32 (b : list Z) : Z :=
  Z.lor (nth 0 b 0)
    (Z.lor (Z.shiftl (nth 1 b 0) 8)
       (Z.lor (Z.shiftl (nth 2 b 0) 16) (Z.shiftl (nth 3 b 0) 24))).

(** [binary.Uvarint] (Go 1.13): [x] and [s] are the accumulator and shift,
    [i] the index of the current byte. *)
Fixpoint uvarintLoop (buf : list Z) (i x s : Z) : Z * Z :=
  match buf with
  | [] => (0, 0)
  | b :: rest =>
      if b <? 128 then
        if (i >? 9) || ((i =? 9) && (b >? 1)) then (0, - (i + 1))
        else (Z.lor x (Z.shiftl b s mod 2 ^ 64), i + 1)
      else
        uvarintLoop rest (i + 1)
          (Z.lor x (Z.shiftl (Z.land b 127) s mod 2 ^ 64)) (s + 7)
  end.

Definition Uvarint (buf : list Z) : Z * Z := uvarintLoop buf 0 0 0.

(** [binary.Varint]: zig-zag decoding, [^x] is [-x - 1]. *)
Definition Varint (buf : list Z) : Z * Z :=
  let (ux, n) := Uvarint buf in
  let x := Z.shiftr ux 1 in
  (if Z.testbit ux 0 then - x - 1 else x, n).

(** ** What the handlers read

    [ThresholdSigner] as far as the handlers use it. *)
Record signer := mkSigner { PublicKey : string }.

(** [chain.FundingInfo]: a 36-byte outpoint and 8 value bytes. *)
Record fundingInfo := mkFundingInfo {
  UtxoOutpoint : list Z;
  UtxoValueBytes : list Z
}.

(** The results of the calls one handler run makes to the host chain (for
    the handled keep), the event deduplicator, the keeps registry, the TSS
    node and the Bitcoin helpers.  A chain read inside a confirmation check
    takes the block height the wait reached. *)
Record Env := mkEnv {
  WaitForBlockHeight : Z -> res unit;
  CurrentBlock : res Z;
  IsActive : res bool;                    (* keep.IsActive() without a wait *)
  IsActiveAt : Z -> res bool;             (* keep.IsActive() in a state check *)
  IsAwaitingSignatureAt : Digest -> Z -> res bool;
  LatestDigest : res Digest;
  IsAwaitingSignature : Digest -> res bool;
  SignatureRequestedBlock : Digest -> res Z;
  NotifySigningStarted : Digest -> res bool;
  NotifyClosingStarted : bool;
  NotifyTerminatingStarted : bool;
  CalculateSignature : Digest -> res unit;
  GetSigner : res signer;
  GenerateSignerForKeep : res signer;
  RegisterSigner : res unit;
  MonitorSigningRequests : res unit;      (* subscription to SignatureRequested *)
  GetMembers : res (list string);
  AnnounceSignerPresence : list string -> res (list MemberID);
  BroadcastRecoveryInfos : list MemberID -> res (list recoveryInfo);
  DeriveAddress : string -> Z -> res string;
  PublicKeyToP2WPKHScriptCode : string -> res string;
  GetOwner : res string;
  FundingInfo : string -> res fundingInfo;
  ConstructUnsignedTransaction : string -> Z -> Z -> Z -> list string -> res string;
  CalcWitnessSigHash : string -> string -> Z -> res (list Z);
  SignerCalculateSignature : list Z -> res string;
  BuildSignedTransactionHexString : string -> string -> string -> res string
}.

Section Handlers.

Variable e : Env.

(** ** [monitorKeepClosedEvents]: the goroutine started per event *)
Definition keepClosedBody (blockNumber : Z) : M unit :=
  r <- WaitForBlockConfirmations (WaitForBlockHeight e) blockNumber
         blockConfirmations PIsActive (IsActiveAt e) ;;
  isKeepActive <- try_ r "failed to confirm keep closed" ;;
  if isKeepActive then stop Warning "keep has not been closed" else
  emit EUnregisterKeep ;;;
  emit EKeepChannelSignal.

Definition onKeepClosed (blockNumber : Z) : list event :=
  if negb (NotifyClosingStarted e) then [ELog Info "close event already handled"]
  else fst (defer EClosingCompleted (keepClosedBody blockNumber)).

(** ** [monitorKeepTerminatedEvent] *)

(** The fee loop over [recoveryInfos], started at [recoveryInfos[0]]. *)
Fixpoint minFee (fee : Z) (recoveryInfos : list recoveryInfo) : Z :=
  match recoveryInfos with
  | [] => fee
  | ri :: rest =>
      minFee (if maxFeePerVByte ri <? fee then maxFeePerVByte ri else fee) rest
  end.

(** The derivation loop: [recovery.DeriveAddress(rawBtcAddress, 0)] for
    each raw address, returning on the first failure. *)
Fixpoint deriveAll (rawBtcAddresses : list string) (derived : list string)
    : M (list string) :=
  match rawBtcAddresses with
  | [] => ret derived
  | rawBtcAddress :: rest =>
      match DeriveAddress e rawBtcAddress 0 with
      | Err _ => stop Error "unable to derive btc address"
      | Ok btcAddress => deriveAll rest (derived ++ [btcAddress])
      end
  end.

(** The liquidation-recovery steps after the termination is confirmed. *)
Definition liquidationRecovery : M unit :=
  (* members, err := keep.GetMembers(): this err is overwritten unchecked *)
  let members := match GetMembers e with Ok ms => ms | Err _ => [] end in
  memberIDs <- try_ (AnnounceSignerPresence e members)
                 "failed to retrieve member ids on keep termination" ;;
  recoveryInfos <- try_ (BroadcastRecoveryInfos e memberIDs)
                     "failed to retrieve btc recovery addresses" ;;
  match recoveryInfos with
  | [] => ([EPanic "index out of range [0] with length 0"], None)
  | first :: _ =>
  let rawBtcAddresses := map btcRecoveryAddress recoveryInfos in
  let maxFee := minFee (maxFeePerVByte first) recoveryInfos in
  derived <- deriveAll rawBtcAddresses [] ;;
  let derivedBtcAddresses := sort_Strings derived in
  s <- try_ (GetSigner e) "no signer for keep" ;;
  scriptCodeBytes <- try_ (PublicKeyToP2WPKHScriptCode e (PublicKey s))
                       "failed to retrieve the script code" ;;
  depositAddress <- try_ (GetOwner e) "failed to retrieve the deposit address" ;;
  fi <- try_ (FundingInfo e depositAddress) "failed to retrieve the funding info" ;;
  let previousOutputTransactionHashHex := EncodeToString (firstn 32 (UtxoOutpoint fi)) in
  let previousOutputIndex := LittleEndianUint32 (skipn 32 (UtxoOutpoint fi)) in
  let (previousOutputValue, bytesRead) := Varint (UtxoValueBytes fi) in
  if bytesRead =? 0 then stop Error "the buffer was too small" else
  if bytesRead <? 0 then stop Error "the value was larger than 64 bits" else
  emit (EConstructUnsignedTransaction previousOutputTransactionHashHex
          previousOutputIndex previousOutputValue maxFee derivedBtcAddresses) ;;;
  unsignedTransaction <-
    try_ (ConstructUnsignedTransaction e previousOutputTransactionHashHex
            previousOutputIndex previousOutputValue maxFee derivedBtcAddresses)
         "failed to construct the unsigned transaction" ;;
  sighashBytes <- try_ (CalcWitnessSigHash e scriptCodeBytes unsignedTransaction
                          previousOutputValue)
                       "failed to calculate the sighash bytes" ;;
  emit (ERecoverySignature sighashBytes) ;;;
  signature <- try_ (SignerCalculateSignature e sighashBytes)
                    "failed to calculate the signature bytes" ;;
  signedHexString <- try_ (BuildSignedTransactionHexString e unsignedTransaction
                             signature (PublicKey s))
                          "failed to build the signed hex string" ;;
  emit (ELog Warning (String.append "Please broadcast Bitcoin transaction " signedHexString)) ;;;
  emit (ELog Warning (String.append "Please broadcast Bitcoin transaction " signedHexString)) ;;;
  emit (ELog Warning (String.append "Please broadcast Bitcoin transaction " signedHexString)) ;;;
  emit (ELog Warning (String.append "Please broadcast Bitcoin transaction " signedHexString)) ;;;
  emit (ELog Warning (String.append "Please broadcast Bitcoin transaction " signedHexString))
  end.

Definition keepTerminatedBody (blockNumber : Z) : M unit :=
  r <- WaitForBlockConfirmations (WaitForBlockHeight e) blockNumber
         blockConfirmations PIsActive (IsActiveAt e) ;;
  isKeepActive <- try_ r "failed to confirm keep termination" ;;
  if isKeepActive then stop Warning "keep has not been terminated" else
  liquidationRecovery ;;;
  emit EUnregisterKeep ;;;
  emit EKeepChannelSignal.

Definition onKeepTerminated (blockNumber : Z) : list event :=
  if negb (NotifyTerminatingStarted e) then [ELog Info "terminate event already handled"]
  else fst (defer ETerminatingCompleted (keepTerminatedBody blockNumber)).


(** ** [monitorSigningRequests]: the operation passed to
    [DoWithDefaultRetry] for a [SignatureRequested] event.  It returns the
    Go [error] ([None] for [nil]).  Go scoping: the [err] declared by
    [if err := tssNode.CalculateSignature(...); err != nil] lives in the
    [if] only, so the final [return err] returns the [err] of the
    confirmation wait. *)
Definition signingRequestOp (d : Digest) (blockNumber : Z)
    : list event * option string :=
  match NotifySigningStarted e d with
  | Err err => ([ELog Error "could not deduplicate signing request event"], Some err)
  | Ok false => ([ELog Info "signing request already handled"], None)
  | Ok true =>
      let body : list event * option string :=
        let (tr, r) := WaitForBlockConfirmations (WaitForBlockHeight e) blockNumber
                         blockConfirmations (PIsAwaitingSignature d)
                         (IsAwaitingSignatureAt e d) in
        match r with
        | None => (tr, None)
        | Some (Err err) => (tr ++ [ELog Error "failed to confirm signing request"], Some err)
        | Some (Ok false) =>
            (tr ++ [ELog Warning "keep is not awaiting a signature"], None)
        | Some (Ok true) =>
            let outerErr : option string := None in
            match CalculateSignature e d with
            | Err _ =>
                (tr ++ [ECalculateSignature d;
                        ELog Error "signature calculation failed"], outerErr)
            | Ok _ => (tr ++ [ECalculateSignature d], outerErr)
            end
        end in
      (fst body ++ [ESigningCompleted d], snd body)
  end.

(** ** [checkAwaitingSignature]: the operation passed to
    [DoWithDefaultRetry] for the latest digest; the same scoping as above. *)
Definition awaitingSignatureOp (latestDigest : Digest)
    : list event * option string :=
  match NotifySigningStarted e latestDigest with
  | Err err => ([ELog Error "could not deduplicate signing request event"], Some err)
  | Ok false => ([ELog Info "signing request already handled"], None)
  | Ok true =>
      let body : list event * option string :=
        match SignatureRequestedBlock e latestDigest with
        | Err err =>
            ([ELog Error "failed to get signature request block height"], Some err)
        | Ok startBlock =>
            let (tr, r) :=
              WaitForBlockConfirmations (WaitForBlockHeight e) startBlock
                blockConfirmations (PIsAwaitingSignatureAndActive latestDigest)
                (fun h =>
                   match IsAwaitingSignatureAt e latestDigest h with
                   | Err err => Err err
                   | Ok isAwaitingSignature =>
                       match IsActiveAt e h with
                       | Err err => Err err
                       | Ok isActive => Ok (isAwaitingSignature && isActive)
                       end
                   end) in
            match r with
            | None => (tr, None)
            | Some (Err err) => (tr ++ [ELog Error "failed to confirm signing request"], Some err)
            | Some (Ok false) =>
                (tr ++ [ELog Warning "keep is not awaiting a signature"], None)
            | Some (Ok true) =>
                let outerErr : option string := None in
                match CalculateSignature e latestDigest with
                | Err _ =>
                    (tr ++ [ECalculateSignature latestDigest;
                            ELog Error "signature calculation failed"], outerErr)
                | Ok _ => (tr ++ [ECalculateSignature latestDigest], outerErr)
                end
            end
        end in
      (fst body ++ [ESigningCompleted latestDigest], snd body)
  end.

(** ** [Initialize]: [confirmIsInactive] *)
Definition confirmIsInactive : M bool :=
  match CurrentBlock e with
  | Err _ => ([ELog Error "failed to get current block height"], Some false)
  | Ok currentBlock =>
      r <- WaitForBlockConfirmations (WaitForBlockHeight e) currentBlock
             blockConfirmations PIsActive (IsActiveAt e) ;;
      match r with
      | Err _ => ([ELog Error "failed to confirm that keep is inactive"], Some false)
      | Ok isKeepActive => ret (negb isKeepActive)
      end
  end.

(** [Initialize]: the goroutine started for each keep of the registry. *)
Definition startupKeep : M unit :=
  isActive <- try_ (IsActive e) "failed to verify if keep is still active" ;;
  (if isActive then ret tt else
   isInactivityConfirmed <- confirmIsInactive ;;
   if isInactivityConfirmed then
     ([ELog Info "confirmed that keep is no longer active; archiving";
       EUnregisterKeep], None)
   else emit (ELog Warning "keep is still active")) ;;;
  _ <- try_ (GetSigner e) "no signer for keep" ;;
  emit EMonitorSigningRequests ;;;
  _ <- try_ (MonitorSigningRequests e)
         "failed registering for requested signature event" ;;
  emit EMonitorKeepClosed ;;;
  emit EMonitorKeepTerminated.

(** ** [generateKeyForKeep] *)
Definition generateKeyForKeep (members : list string) (honestThreshold : Z)
    : M unit :=
  if Z.of_nat (length members) <? 2 then
    stop Error "only keeps with at least 2 members are supported" else
  if negb (honestThreshold =? Z.of_nat (length members)) then
    stop Error "only keeps with honest threshold same as group size are supported" else
  emit (ELog Info "member is starting signer generation") ;;;
  emit EGenerateSigner ;;;
  _ <- try_ (GenerateSignerForKeep e) "failed to generate signer for keep" ;;
  emit ERegisterSigner ;;;
  _ <- try_ (RegisterSigner e) "failed to register threshold signer for keep" ;;
  emit EMonitorSigningRequests ;;;
  _ <- try_ (MonitorSigningRequests e)
         "failed on registering for requested signature event" ;;
  emit EMonitorKeepClosed ;;;
  emit EMonitorKeepTerminated.

End Handlers.

(** ** The retried signing paths *)

(** The goroutine started for a [SignatureRequested] event; [envs i] is
    what attempt [i] observes. *)
Definition onSignatureRequested (envs : nat -> Env) (attempts : nat)
    (d : Digest) (blockNumber : Z) : list event * option string :=
  let (tr, err) :=
    DoWithDefaultRetry (fun i => signingRequestOp (envs i) d blockNumber) 0 attempts in
  match err with
  | None => (tr, None)
  | Some _ => (tr ++ [ELog Error "failed to generate a signature"], err)
  end.

(** [checkAwaitingSignature]; [e0] is what the first reads observe. *)
Definition checkAwaitingSignature (e0 : Env) (envs : nat -> Env) (attempts : nat)
    : list event :=
  match LatestDigest e0 with
  | Err _ => [ELog Error "could not get latest digest for keep"]
  | Ok latestDigest =>
      match IsAwaitingSignature e0 latestDigest with
      | Err _ => [ELog Error "could not check awaiting signature"]
      | Ok false => []
      | Ok true =>
          let (tr, err) :=
            DoWithDefaultRetry (fun i => awaitingSignatureOp (envs i) latestDigest)
              0 attempts in
          ELog Info "awaiting a signature from keep" ::
          match err with
          | None => tr
          | Some _ => tr ++ [ELog Error "failed to generate a signature"]
          end
      end
  end.


(** ** [checkAwaitingKeyGeneration] *)

(** The on-chain state of a keep. *)
Record keep := mkKeep {
  keepID : string;
  openedTimestamp : Z;
  publicKey : list Z;
  keepMembers : list string;
  keepHonestThreshold : Z
}.

(** The chain reads of the startup scan; a read either fails or returns
    the keep's state.  [Now i] is [time.Now()] when the keep at index [i]
    is checked. *)
Record ScanEnv := mkScanEnv {
  GetKeepCount : res Z;
  GetKeepAtIndex : Z -> res keep;
  GetOpenedTimestamp : keep -> res Z;
  GetPublicKey : keep -> res (list Z);
  GetKeepMembers : keep -> res (list string);
  GetHonestThreshold : keep -> res Z;
  HasSigner : string -> bool;                 (* keepsRegistry.HasSigner *)
  Address : string;                           (* hostChain.Address() *)
  AwaitingKeyGenerationLookback : Z;
  Now : Z -> Z
}.

Section Scan.

Variable se : ScanEnv.

(** [checkAwaitingKeyGenerationForKeep]; the loop over [members] starts
    [generateKeyForKeep] for the first member equal to this node's address
    and breaks. *)
Definition checkAwaitingKeyGenerationForKeep (k : keep)
    : list event * option string :=
  match GetPublicKey se k with
  | Err err => ([], Some err)
  | Ok pk =>
      if negb (Nat.eqb (length pk) 0) then ([], None) else
      if HasSigner se (keepID k) then
        ([ELog Warning "keep public key is not registered on-chain but key material is stored on disk"], None)
      else
        match GetKeepMembers se k with
        | Err err => ([], Some err)
        | Ok members =>
            match GetHonestThreshold se k with
            | Err err => ([], Some err)
            | Ok _ =>
                (if existsb (String.eqb (Address se)) members
                 then [EGenerateKeyForKeep (keepID k)] else [], None)
            end
        end
  end.

(** The [for] loop from [keepCount - 1] down to [0]; the loop runs at most
    [keepCount] times, which [fuel] counts. *)
Fixpoint scanLoop (fuel : nat) (keepIndex : Z) : list event :=
  match fuel with
  | O => []
  | S f =>
      if keepIndex <? 0 then [] else
      ELog Debug "checking awaiting key generation for keep at index" ::
      match GetKeepAtIndex se keepIndex with
      | Err _ =>
          ELog Warning "could not get keep at index" :: scanLoop f (keepIndex - 1)
      | Ok k =>
          match GetOpenedTimestamp se k with
          | Err _ =>
              ELog Warning "could not check opening timestamp for keep"
                :: scanLoop f (keepIndex - 1)
          | Ok keepOpenedTimestamp =>
              if keepOpenedTimestamp + AwaitingKeyGenerationLookback se
                   <? Now se keepIndex
              then [ELog Debug "stopping awaiting key generation check"]
              else
                let (tr, err) := checkAwaitingKeyGenerationForKeep k in
                tr ++ match err with
                      | Some _ => [ELog Warning "could not check awaiting key generation for keep"]
                      | None => []
                      end
                   ++ scanLoop f (keepIndex - 1)
          end
      end
  end.

Definition checkAwaitingKeyGeneration : list event :=
  match GetKeepCount se with
  | Err _ => [ELog Warning "could not get keep count"]
  | Ok keepCount => scanLoop (Z.to_nat keepCount) (keepCount - 1)
  end.

End Scan.

(** ** [Initialize]: the per-keep startup goroutine from its first read *)

(** Go's run-time error for a method call on the nil handle that
    [GetKeepWithID] returns beside its error. *)
Definition nilHandlePanic : string :=
  "invalid memory address or nil pointer dereference".

(** The goroutine started for each keep address of the registry:
    [hostChain.GetKeepWithID(keepAddress)], then the steps of
    [startupKeep].  On a lookup error the arguments of the error log
    include [keep.ID()] on the returned nil handle, which panics before
    anything is logged. *)
Definition startupKeepAddress (e : Env) (getKeepWithID : res unit) : M unit :=
  match getKeepWithID with
  | Err _ => ([EPanic nilHandlePanic], None)
  | Ok _ => startupKeep e
  end.

(** ** [Initialize]: the [BondedECDSAKeepCreated] handler *)

(** What the handler and its goroutine do: the actions of
    [generateKeyForKeep], and the deferred
    [eventDeduplicator.NotifyKeyGenCompleted]. *)
Inductive keyGenAction :=
| KAct (a : event)
| KKeyGenCompleted.

(** The handler passed to [hostChain.OnBondedECDSAKeepCreated], followed
    by the goroutine it starts.  [isMember] is
    [event.IsMember(hostChain.Address())], [shouldHandle] the result of
    [eventDeduplicator.NotifyKeyGenStarted], [getKeepWithID] the result of
    [hostChain.GetKeepWithID]: on its error, [keep.ID()] in the arguments
    of the error log is called on the nil handle and panics; the deferred
    [NotifyKeyGenCompleted] still runs. *)
Definition onBondedECDSAKeepCreated (e : Env) (isMember shouldHandle : bool)
    (getKeepWithID : res unit) (members : list string) (honestThreshold : Z)
    : list keyGenAction :=
  KAct (ELog Info "new keep created") ::
  if negb isMember then [KAct (ELog Info "not a signing group member in keep, skipping")]
  else if negb shouldHandle then
    [KAct (ELog Info "key generation request for keep already handled")]
  else
    match getKeepWithID with
    | Err _ => [KAct (EPanic nilHandlePanic); KKeyGenCompleted]
    | Ok _ =>
        map KAct (fst (generateKeyForKeep e members honestThreshold))
        ++ [KKeyGenCompleted]
    end.

(** ** The goroutines [monitorKeepClosedEvents] and
    [monitorKeepTerminatedEvent] around their handlers *)

(** What the monitoring goroutine itself does. *)
Inductive monitorAction :=
| MLog (lvl : level) (msg : string)
| MUnsubscribeKeepClosed              (* subscriptionOnKeepClosed.Unsubscribe() *)
| MUnsubscribeKeepTerminated          (* subscriptionOnKeepTerminated.Unsubscribe() *)
| MUnsubscribeSignatureRequested.     (* subscriptionOnSignatureRequested.Unsubscribe() *)

(** Some handler goroutine sent its event on the keep's channel. *)
Definition signalled (runs : list (list event)) : bool :=
  existsb (fun tr => existsb (fun a => match a with
                                        | EKeepChannelSignal => true
                                        | _ => false
                                        end) tr) runs.

(** [subscribe] is the result of [keep.OnKeepClosed(handler)]; [runs] are
    the traces of the handler goroutines so far.  [None]: the goroutine
    still blocks on [<-keepClosed].  On return the two deferred
    [Unsubscribe] calls run in reverse order of their [defer]s. *)
Definition monitorKeepClosedEvents (subscribe : res unit) (runs : list (list event))
    : option (list monitorAction) :=
  match subscribe with
  | Err _ => Some [MLog Error "failed on registering for closed event"]
  | Ok _ =>
      if signalled runs then
        Some [MLog Info "unsubscribing from events on keep closed";
              MUnsubscribeSignatureRequested; MUnsubscribeKeepClosed]
      else None
  end.

(** The same for [keep.OnKeepTerminated(handler)] and [<-keepTerminated]. *)
Definition monitorKeepTerminatedEvent (subscribe : res unit) (runs : list (list event))
    : option (list monitorAction) :=
  match subscribe with
  | Err _ => Some [MLog Error "failed on registering for terminated event"]
  | Ok _ =>
      if signalled runs then
        Some [MLog Info "unsubscribing from events on keep terminated";
              MUnsubscribeSignatureRequested; MUnsubscribeKeepTerminated]
      else None
  end.

End Client.

(** * Statement vocabulary and example inputs *)

Import Recovery Client.

(** The irreversible local actions: unregistering a keep, and invoking
    signature calculation for a requested digest. *)
Definition irreversible (a : event) : bool :=
  match a with
  | EUnregisterKeep | ECalculateSignature _ => true
  | _ => false
  end.

(** [c] is a confirmation that licenses [a]: it waited until at least 12
    blocks past a triggering block [s] (one satisfying [trigger]) and the
    re-evaluated predicate gave the confirming value. *)
Definition confirms (trigger : Z -> Prop) (a c : event) : Prop :=
  match c, a with
  | EConfirmed s h p v, EUnregisterKeep =>
      trigger s /\ s + 12 <= h /\ p = PIsActive /\ v = false
  | EConfirmed s h p v, ECalculateSignature d =>
      trigger s /\ s + 12 <= h /\
      (p = PIsAwaitingSignature d \/ p = PIsAwaitingSignatureAndActive d) /\
      v = true
  | _, _ => False
  end.

(** Every irreversible action of a trace has a licensing confirmation
    earlier in the trace. *)
Definition guarded (trigger : Z -> Prop) (tr : list event) : Prop :=
  forall l1 a l2, tr = l1 ++ a :: l2 -> irreversible a = true ->
  exists c, In c l1 /\ confirms trigger a c.

(** The index-0 derivations of a list of raw addresses, when all succeed. *)
Fixpoint derivedAt0 (e : Env) (raws : list string) : option (list string) :=
  match raws with
  | [] => Some []
  | r :: rest =>
      match DeriveAddress e r 0 with
      | Err _ => None
      | Ok a => option_map (cons a) (derivedAt0 e rest)
      end
  end.

(** An environment in which the chain confirms a termination at block
    [150 + 12] and a signature request for digest 9 at block [200 + 12];
    [announceOk] and [calcOk] select whether [AnnounceSignerPresence] and
    [tssNode.CalculateSignature] succeed.  The three announced addresses are
    those of the spec's recovery scenario, with fees 40, 30 and 35. *)
Definition exampleEnv (announceOk calcOk : bool) : Env := {|
  WaitForBlockHeight := fun _ => Ok tt;
  CurrentBlock := Ok 100;
  IsActive := Ok false;
  IsActiveAt := fun _ => Ok false;
  IsAwaitingSignatureAt := fun _ _ => Ok true;
  LatestDigest := Ok 9;
  IsAwaitingSignature := fun _ => Ok true;
  SignatureRequestedBlock := fun _ => Ok 200;
  NotifySigningStarted := fun _ => Ok true;
  NotifyClosingStarted := true;
  NotifyTerminatingStarted := true;
  CalculateSignature := fun _ => if calcOk then Ok tt else Err "tss signing failed";
  GetSigner := Ok (mkSigner "keep-public-key");
  GenerateSignerForKeep := Ok (mkSigner "keep-public-key");
  RegisterSigner := Ok tt;
  MonitorSigningRequests := Ok tt;
  GetMembers := Ok ["0xop1"; "0xop2"; "0xop3"];
  AnnounceSignerPresence := fun _ =>
    if announceOk then Ok ["m1"; "m2"; "m3"] else Err "announce timed out";
  BroadcastRecoveryInfos := fun _ =>
    Ok [mkRecoveryInfo "zpub6rePDVHfRP14" 40; mkRecoveryInfo "xpub6Cg41S21Vrxk" 30;
        mkRecoveryInfo "ypub6Xxan668aiJq" 35];
  DeriveAddress := fun raw _ =>
    Ok (if String.eqb raw "zpub6rePDVHfRP14" then "bc1q46uejlhm9vkswfcqs9plvujzzmqjvtfda3mra6"
        else if String.eqb raw "xpub6Cg41S21Vrxk" then "1MjCqoLqMZ6Ru64TTtP16XnpSdiE8Kpgcx"
        else "3Aobe26f7QzKN73mvYQVbt1KLrCU1CgQpD");
  PublicKeyToP2WPKHScriptCode := fun _ => Ok "script-code";
  GetOwner := Ok "0xdeposit";
  FundingInfo := fun _ =>
    Ok (mkFundingInfo (repeat 171 32 ++ [1; 0; 0; 0]) [200; 1; 0; 0; 0; 0; 0; 0]);
  ConstructUnsignedTransaction := fun _ _ _ _ _ => Ok "unsigned-tx";
  CalcWitnessSigHash := fun _ _ _ => Ok [1; 2; 3];
  SignerCalculateSignature := fun _ => Ok "signature";
  BuildSignedTransactionHexString := fun _ _ _ => Ok "0200000001"
|}.

(** Member IDs ["m1"], ["m2"], ... map to host-chain addresses
    ["0xm1"], ["0xm2"], ...; every string except ["not-an-address"]
    decodes to itself as a Bitcoin address, and a decoded address is for
    the network unless it has the testnet prefix ["tb1"]. *)
Definition exampleMemberIDToAddress (m : MemberID) : res string := Ok (String.append "0x" m).
Definition exampleDecodeAddress (s : string) (_ : chainParams) : res string :=
  if String.eqb s "not-an-address" then Err "decoded address is of unknown format" else Ok s.
Definition exampleIsForNet (a : string) (_ : chainParams) : bool :=
  negb (String.prefix "tb1" a).
Definition mainnet : chainParams := mkParams "mainnet".

Definition exampleBroadcast (msgs : list announceMessage) (ended : ctxErr) :=
  BroadcastRecoveryAddress exampleMemberIDToAddress string exampleDecodeAddress
    exampleIsForNet mainnet ["m1"; "m2"; "m3"] msgs ended.

(** A scan over one keep opened at time 1000, with a lookback of 500 and
    the clock at 1200; this node ["0xop1"] is a member, the on-chain public
    key is empty and no signer is stored.  [membersOk] selects whether the
    [GetMembers] read succeeds. *)
Definition exampleKeep : keep := mkKeep "0xkeep" 1000 [] ["0xop1"; "0xop2"] 2.

Definition exampleScanEnv (membersOk : bool) : ScanEnv := {|
  GetKeepCount := Ok 1;
  GetKeepAtIndex := fun i => if i =? 0 then Ok exampleKeep else Err "no keep";
  GetOpenedTimestamp := fun k => Ok (openedTimestamp k);
  GetPublicKey := fun k => Ok (publicKey k);
  GetKeepMembers := fun k => if membersOk then Ok (keepMembers k) else Err "rpc timeout";
  GetHonestThreshold := fun k => Ok (keepHonestThreshold k);
  HasSigner := fun _ => false;
  Address := "0xop1";
  AwaitingKeyGenerationLookback := 500;
  Now := fun _ => 1200
|}.

(** Every key of the map is the address of a group member. *)
Definition keysOfMembers (memberIDToAddress : MemberID -> res string)
    (members : list MemberID) (m : gmap string recoveryInfo) : Prop :=
  forall k, is_Some (m !! k) -> exists mid, In mid members /\ memberIDToAddress mid = Ok k.

(** The scan stops at index [j]: the keep and its opening timestamp are
    read there, and the timestamp is older than the lookback window. *)
Definition stopsAt (se : ScanEnv) (j : Z) : bool :=
  match GetKeepAtIndex se j with
  | Err _ => false
  | Ok kj =>
      match GetOpenedTimestamp se kj with
      | Err _ => false
      | Ok tj => tj + AwaitingKeyGenerationLookback se <? Now se j
      end
  end.

(** The sweep outputs for [exampleEnv]: its three derived addresses in
    [sort.Strings] order. *)
Definition exampleSweepOutputs : list string :=
  ["1MjCqoLqMZ6Ru64TTtP16XnpSdiE8Kpgcx"; "3Aobe26f7QzKN73mvYQVbt1KLrCU1CgQpD";
   "bc1q46uejlhm9vkswfcqs9plvujzzmqjvtfda3mra6"].

(** The construction request [exampleEnv] leads to: the funding outpoint's
    hash and index, the 100-satoshi value, fee 30. *)
Definition exampleConstruct : event :=
  EConstructUnsignedTransaction (EncodeToString (repeat 171 32)) 1 100 30
    exampleSweepOutputs.

(** The receiving loop of [exampleBroadcast]. *)
Definition exampleReceive (msgs : list announceMessage) :=
  receiveLoop exampleMemberIDToAddress ["m1"; "m2"; "m3"] ∅ msgs.

(** Announcements from all three members, the second with an address that
    does not validate. *)
Definition exampleAnnouncements : list announceMessage :=
  [mkAnnounce "m1" "A1" 40; mkAnnounce "m2" "not-an-address" 30;
   mkAnnounce "m3" "A3" 35].

(** A trace step that starts key generation for the keep [x]. *)
Definition isKeyGenFor (x : string) (a : event) : bool :=
  match a with EGenerateKeyForKeep y => String.eqb y x | _ => false end.

(** A registry of four keeps, newest last, with the clock at 1200 and a
    lookback of 500: the keep at index 3 was opened at 1100 and its members
    cannot be read; the one at index 2 was opened at 1000; the one at
    index 1 at 200, outside the window, so the scan stops there and never
    reaches the keep at index 0.  This node ["0xop1"] is a member of all
    of them, no public key is on chain and no signer is stored. *)
Definition exampleKeeps : list keep :=
  [mkKeep "0xk0" 900 [] ["0xop1"; "0xop2"] 2; mkKeep "0xk1" 200 [] ["0xop1"; "0xop2"] 2;
   mkKeep "0xk2" 1000 [] ["0xop1"; "0xop2"] 2; mkKeep "0xk3" 1100 [] ["0xop1"; "0xop2"] 2].

Definition exampleScanEnv4 : ScanEnv := {|
  GetKeepCount := Ok 4;
  GetKeepAtIndex := fun i =>
    match nth_error exampleKeeps (Z.to_nat i) with
    | Some k => if i <? 0 then Err "no keep" else Ok k
    | None => Err "no keep"
    end;
  GetOpenedTimestamp := fun k => Ok (openedTimestamp k);
  GetPublicKey := fun k => Ok (publicKey k);
  GetKeepMembers := fun k =>
    if String.eqb (keepID k) "0xk3" then Err "rpc timeout" else Ok (keepMembers k);
  GetHonestThreshold := fun k => Ok (keepHonestThreshold k);
  HasSigner := fun _ => false;
  Address := "0xop1";
  AwaitingKeyGenerationLookback := 500;
  Now := fun _ => 1200
|}.

(** [exampleEnv true true] with a member-id broadcast that delivers no
    recovery information at all. *)
Definition exampleEnvNoInfos : Env :=
  let e := exampleEnv true true in {|
  WaitForBlockHeight := WaitForBlockHeight e;
  CurrentBlock := CurrentBlock e;
  IsActive := IsActive e;
  IsActiveAt := IsActiveAt e;
  IsAwaitingSignatureAt := IsAwaitingSignatureAt e;
  LatestDigest := LatestDigest e;
  IsAwaitingSignature := IsAwaitingSignature e;
  SignatureRequestedBlock := SignatureRequestedBlock e;
  NotifySigningStarted := NotifySigningStarted e;
  NotifyClosingStarted := NotifyClosingStarted e;
  NotifyTerminatingStarted := NotifyTerminatingStarted e;
  CalculateSignature := CalculateSignature e;
  GetSigner := GetSigner e;
  GenerateSignerForKeep := GenerateSignerForKeep e;
  RegisterSigner := RegisterSigner e;
  MonitorSigningRequests := MonitorSigningRequests e;
  GetMembers := GetMembers e;
  AnnounceSignerPresence := AnnounceSignerPresence e;
  BroadcastRecoveryInfos := fun _ => Ok [];
  DeriveAddress := DeriveAddress e;
  PublicKeyToP2WPKHScriptCode := PublicKeyToP2WPKHScriptCode e;
  GetOwner := GetOwner e;
  FundingInfo := FundingInfo e;
  ConstructUnsignedTransaction := ConstructUnsignedTransaction e;
  CalcWitnessSigHash := CalcWitnessSigHash e;
  SignerCalculateSignature := SignerCalculateSignature e;
  BuildSignedTransactionHexString := BuildSignedTransactionHexString e
|}.

(** * Properties *)

(** ** Shared lemmas *)

Lemma deriveAll_spec (e : Env) (raws acc : list string) :
  deriveAll e raws acc =
  match derivedAt0 e raws with
  | Some ds => ([], Some (acc ++ ds))
  | None => ([ELog Error "unable to derive btc address"], None)
  end.
Proof.
  revert acc; induction raws as [|r raws IH]; intros acc; simpl.
  - by rewrite app_nil_r.
  - destruct (DeriveAddress e r 0); [|done].
    rewrite IH. destruct (derivedAt0 e raws); simpl; [|done].
    by rewrite <- app_assoc.
Qed.

(** Destruct the scrutinee of the first [match] in the goal. *)
Ltac split_match :=
  match goal with
  | |- context [try_ ?r _] => let E := fresh "E" in destruct r eqn:E
  | |- context [match ?x with _ => _ end] =>
      let T := type of x in
      let T := eval hnf in T in
      lazymatch T with
      | prod (list event) (option _) => fail
      | _ => let E := fresh "E" in destruct x eqn:E
      end
  end.

(** The recovery steps neither unregister the keep nor invoke signature
    calculation for a requested digest. *)
Lemma liquidationRecovery_noIrr (e : Env) :
  Forall (fun a => irreversible a = false) (fst (liquidationRecovery e)).
Proof.
  unfold liquidationRecovery.
  repeat (try rewrite deriveAll_spec; split_match; simpl); repeat constructor.
Qed.

(** Refute membership in a list of distinct constructors. *)
Ltac not_in :=
  let H := fresh "H" in
  intros H; simpl in H;
  repeat (destruct H as [H|H]; [discriminate|]);
  contradiction.

Lemma Forall_noIrr_notIn (l : list event) :
  Forall (fun a => irreversible a = false) l -> ~ In EUnregisterKeep l.
Proof. intros HF H. rewrite List.Forall_forall in HF. by pose proof (HF _ H). Qed.

(** ** C1: unregistering after a confirmed termination *)

(** Claim C1, as stated, fails: with the termination confirmed (the wait
    reached block 162 and [IsActive] gave [false]) and
    [AnnounceSignerPresence] failing, the handler never unregisters the
    keep. *)
Lemma C1_counterexample :
  In (EConfirmed 150 162 PIsActive false) (onKeepTerminated (exampleEnv false true) 150) /\
  ~ In EUnregisterKeep (onKeepTerminated (exampleEnv false true) 150).
Proof.
  split; vm_compute; [by left|].
  not_in.
Qed.

(** Claim C1: the terminated-event handler unregisters the keep exactly
    when it handles the event, its confirmation finds the keep inactive,
    and every liquidation-recovery step succeeds; when any recovery step
    fails it returns without unregistering, unlike the best-effort
    recovery the spec and the function's doc comment describe. *)
Theorem C1_unregister_only_after_recovery (e : Env) (b : Z) :
  In EUnregisterKeep (onKeepTerminated e b) <->
  NotifyTerminatingStarted e = true /\
  WaitForBlockHeight e (b + blockConfirmations) = Ok tt /\
  IsActiveAt e (b + blockConfirmations) = Ok false /\
  snd (liquidationRecovery e) = Some tt.
Proof.
  unfold onKeepTerminated, keepTerminatedBody, defer, WaitForBlockConfirmations.
  destruct (NotifyTerminatingStarted e); simpl;
    [|split; [intros [H|H]; [discriminate|done] | intros [H _]; discriminate]].
  destruct (WaitForBlockHeight e (b + blockConfirmations)) as [[]|] eqn:HW; simpl;
    [|split; [intros [H|[H|H]]; [discriminate..|done] | intros (_&H&_); discriminate]].
  destruct (IsActiveAt e (b + blockConfirmations)) as [[|]|] eqn:HA; simpl.
  - split; [not_in
           | intros (_&_&H&_); discriminate].
  - pose proof (liquidationRecovery_noIrr e) as HF.
    destruct (liquidationRecovery e) as [l [[]|]]; simpl in *.
    + split; [intros _; done|]. intros _. right. rewrite in_app_iff. left.
      rewrite in_app_iff. right. by left.
    + split; [|intros (_&_&_&H); discriminate].
      intros [H|H]; [discriminate|].
      rewrite in_app_iff in H. destruct H as [H|[H|H]]; [|discriminate|done].
      by apply Forall_noIrr_notIn in HF.
  - split; [not_in
           | intros (_&_&H&_); discriminate].
Qed.

(** ** C2 and C5: the arguments of the sweep-transaction construction *)

Lemma liquidationRecovery_construct (e : Env) ph pi pv fee outs :
  In (EConstructUnsignedTransaction ph pi pv fee outs) (fst (liquidationRecovery e)) ->
  exists ids first rest ds,
    BroadcastRecoveryInfos e ids = Ok (first :: rest) /\
    fee = minFee (maxFeePerVByte first) (first :: rest) /\
    derivedAt0 e (map btcRecoveryAddress (first :: rest)) = Some ds /\
    outs = sort_Strings ds.
Proof.
  unfold liquidationRecovery.
  repeat (try rewrite deriveAll_spec; split_match; simpl);
  let H := fresh "H" in
  intros H;
  repeat (destruct H as [H|H];
          [first [ discriminate
                 | injection H; intros; subst;
                   do 4 eexists; split; [eassumption|];
                   split; [destruct (_ <? _)%Z; reflexivity|];
                   split; [eassumption|reflexivity] ] |]);
  contradiction.
Qed.

Lemma onKeepTerminated_construct (e : Env) b ph pi pv fee outs :
  In (EConstructUnsignedTransaction ph pi pv fee outs) (onKeepTerminated e b) ->
  In (EConstructUnsignedTransaction ph pi pv fee outs) (fst (liquidationRecovery e)).
Proof.
  unfold onKeepTerminated, keepTerminatedBody, defer, WaitForBlockConfirmations.
  destruct (NotifyTerminatingStarted e); simpl; [|not_in].
  destruct (WaitForBlockHeight e (b + blockConfirmations)); simpl; [|not_in].
  destruct (IsActiveAt e (b + blockConfirmations)) as [[|]|]; simpl; [not_in| |not_in].
  destruct (liquidationRecovery e) as [l [[]|]]; simpl;
    intros [H|H]; try discriminate; rewrite ?in_app_iff in H; simpl in H;
    intuition discriminate.
Qed.

Lemma minFee_le_start (fee : Z) (infos : list recoveryInfo) :
  minFee fee infos <= fee.
Proof.
  revert fee; induction infos as [|ri rest IH]; intros fee; simpl; [lia|].
  specialize (IH (if maxFeePerVByte ri <? fee then maxFeePerVByte ri else fee)).
  destruct (Z.ltb_spec (maxFeePerVByte ri) fee); lia.
Qed.

Lemma minFee_le (fee : Z) (infos : list recoveryInfo) ri :
  In ri infos -> minFee fee infos <= maxFeePerVByte ri.
Proof.
  revert fee; induction infos as [|r rest IH]; intros fee Hin; simpl; [done|].
  destruct Hin as [->|Hin]; [|by apply IH].
  pose proof (minFee_le_start
                (if maxFeePerVByte ri <? fee then maxFeePerVByte ri else fee) rest).
  destruct (Z.ltb_spec (maxFeePerVByte ri) fee); lia.
Qed.

Lemma minFee_attained (fee : Z) (infos : list recoveryInfo) :
  minFee fee infos = fee \/ exists ri, In ri infos /\ minFee fee infos = maxFeePerVByte ri.
Proof.
  revert fee; induction infos as [|r rest IH]; intros fee; simpl; [by left|].
  destruct (IH (if maxFeePerVByte r <? fee then maxFeePerVByte r else fee))
    as [Heq|(ri & Hin & Heq)].
  - destruct (maxFeePerVByte r <? fee); [right; exists r; auto|by left].
  - right. exists ri. auto.
Qed.

Lemma derivedAt0_Forall2 (e : Env) raws ds :
  derivedAt0 e raws = Some ds ->
  Forall2 (fun raw d => DeriveAddress e raw 0 = Ok d) raws ds.
Proof.
  revert ds; induction raws as [|r rest IH]; intros ds; simpl.
  - intros [= <-]. constructor.
  - destruct (DeriveAddress e r 0) as [a|] eqn:HD; [|discriminate].
    destruct (derivedAt0 e rest) as [ds'|] eqn:HR; simpl; [|discriminate].
    intros [= <-]. constructor; auto.
Qed.

(** C2: when the handler of a [Terminated] event constructs the sweep
    transaction, the fee per vbyte it passes equals one of the
    [maxFeePerVByte] values of the (non-empty) list of received recovery
    infos and is no larger than any of them: it is their minimum. *)
Theorem C2_fee_is_min_of_received (e : Env) (b : Z) ph pi pv fee outs :
  In (EConstructUnsignedTransaction ph pi pv fee outs) (onKeepTerminated e b) ->
  exists ids infos,
    BroadcastRecoveryInfos e ids = Ok infos /\ infos <> [] /\
    (exists ri, In ri infos /\ fee = maxFeePerVByte ri) /\
    (forall ri, In ri infos -> fee <= maxFeePerVByte ri).
Proof.
  intros H. apply onKeepTerminated_construct, liquidationRecovery_construct in H.
  destruct H as (ids & first & rest & ds & HB & Hfee & _ & _).
  exists ids, (first :: rest). split; [done|]. split; [done|]. subst fee. split.
  - destruct (minFee_attained (maxFeePerVByte first) (first :: rest))
      as [Heq|(ri & Hin & Heq)]; [exists first; simpl; auto | exists ri; auto].
  - intros ri Hin. by apply minFee_le.
Qed.

Lemma C2_witness :
  In exampleConstruct (onKeepTerminated (exampleEnv true true) 150) /\
  exists ids infos,
    BroadcastRecoveryInfos (exampleEnv true true) ids = Ok infos /\ infos <> [] /\
    (exists ri, In ri infos /\ 30 = maxFeePerVByte ri) /\
    (forall ri, In ri infos -> 30 <= maxFeePerVByte ri).
Proof.
  assert (H : In exampleConstruct (onKeepTerminated (exampleEnv true true) 150))
    by (vm_compute; right; left; reflexivity).
  split; [exact H | exact (C2_fee_is_min_of_received _ _ _ _ _ _ _ H)].
Defined.

(** C5: when the handler of a [Terminated] event constructs the sweep
    transaction, every received raw recovery address has been derived at
    child index 0, and the output list passed to the construction is a
    [sort.Strings]-sorted permutation of those derivations. *)
Theorem C5_outputs_sorted_derivations (e : Env) (b : Z) ph pi pv fee outs :
  In (EConstructUnsignedTransaction ph pi pv fee outs) (onKeepTerminated e b) ->
  exists ids infos ds,
    BroadcastRecoveryInfos e ids = Ok infos /\
    Forall2 (fun raw d => DeriveAddress e raw 0 = Ok d)
      (map btcRecoveryAddress infos) ds /\
    Permutation outs ds /\ Sorted str_le outs.
Proof.
  intros H. apply onKeepTerminated_construct, liquidationRecovery_construct in H.
  destruct H as (ids & first & rest & ds & HB & _ & HD & ->).
  exists ids, (first :: rest), ds. split; [done|]. split; [by apply derivedAt0_Forall2|].
  split; [apply merge_sort_Permutation | apply Sorted_merge_sort; apply _].
Qed.

Lemma C5_witness :
  In exampleConstruct (onKeepTerminated (exampleEnv true true) 150) /\
  exists ids infos ds,
    BroadcastRecoveryInfos (exampleEnv true true) ids = Ok infos /\
    Forall2 (fun raw d => DeriveAddress (exampleEnv true true) raw 0 = Ok d)
      (map btcRecoveryAddress infos) ds /\
    Permutation exampleSweepOutputs ds /\ Sorted str_le exampleSweepOutputs.
Proof.
  assert (H : In exampleConstruct (onKeepTerminated (exampleEnv true true) 150))
    by (vm_compute; right; left; reflexivity).
  split; [exact H | exact (C5_outputs_sorted_derivations _ _ _ _ _ _ _ H)].
Defined.

(** ** C3: signing errors and the retry runner *)

(** Whenever an attempt of the [SignatureRequested] operation reached
    [CalculateSignature], the operation reports no error to
    [DoWithDefaultRetry], whatever the calculation returned. *)
Lemma signingRequestOp_calculated_nil (e : Env) (d : Digest) (b : Z) :
  In (ECalculateSignature d) (fst (signingRequestOp e d b)) ->
  snd (signingRequestOp e d b) = None.
Proof.
  unfold signingRequestOp, WaitForBlockConfirmations.
  destruct (NotifySigningStarted e d) as [[|]|]; simpl;
    destruct (WaitForBlockHeight e (b + blockConfirmations)) as [[]|]; simpl;
    destruct (IsAwaitingSignatureAt e d (b + blockConfirmations)) as [[|]|]; simpl;
    destruct (CalculateSignature e d); simpl; try done;
    intros H; rewrite ?in_app_iff in H; simpl in H; intuition discriminate.
Qed.

(** C3 (divergence): with [CalculateSignature] failing on every attempt and
    three retries allowed, the signature is calculated once, the failure is
    only logged, and the [SignatureRequested] goroutine ends with no error:
    the operation returns the [nil] [err] of its confirmation wait, so the
    retry runner never re-invokes it. *)
Theorem C3_signing_error_not_retried :
  onSignatureRequested (fun _ => exampleEnv true false) 3 9 200 =
  ([EConfirmed 200 212 (PIsAwaitingSignature 9) true; ECalculateSignature 9;
    ELog Error "signature calculation failed"; ESigningCompleted 9], None).
Proof. vm_compute. reflexivity. Qed.

(** ** C4: irreversible actions follow a confirmation *)

Lemma guarded_noIrr (trigger : Z -> Prop) (l : list event) :
  Forall (fun a => irreversible a = false) l -> guarded trigger l.
Proof.
  intros HF l1 a l2 -> Hi. rewrite List.Forall_forall in HF.
  rewrite (HF a) in Hi; [discriminate|]. apply in_or_app. right. by left.
Qed.

Lemma guarded_app (trigger : Z -> Prop) (l1 l2 : list event) :
  guarded trigger l1 -> guarded trigger l2 -> guarded trigger (l1 ++ l2).
Proof.
  intros G1 G2 m1 a m2 Heq Hi.
  apply List.app_eq_app in Heq as (l & [[-> Hr] | [-> Hr]]).
  - destruct l as [|x l]; simpl in Hr.
    + destruct (G2 [] a m2 (eq_sym Hr) Hi) as (c & [] & _).
    + injection Hr as <- ->.
      destruct (G1 m1 a l eq_refl Hi) as (c & Hc & Hconf). by exists c.
  - destruct (G2 l a m2 Hr Hi) as (c & Hc & Hconf).
    exists c. split; [apply in_or_app; by right | done].
Qed.

Lemma guarded_conf (trigger : Z -> Prop) (c : event) (tr : list event) :
  irreversible c = false ->
  (forall a, In a tr -> irreversible a = true -> confirms trigger a c) ->
  guarded trigger (c :: tr).
Proof.
  intros Hc Hall [|x l1] a l2 Heq Hi; simpl in Heq.
  - injection Heq as -> ->. by rewrite Hc in Hi.
  - injection Heq as -> Htr. exists x. split; [by left|].
    apply Hall; [|done]. rewrite Htr. apply in_or_app. right. by left.
Qed.

Lemma DoWithDefaultRetry_guarded (trigger : Z -> Prop)
    (op : nat -> list event * option string) (i n : nat) :
  (forall j, guarded trigger (fst (op j))) ->
  guarded trigger (fst (DoWithDefaultRetry op i n)).
Proof.
  intros G. revert i; induction n as [|n IH]; intros i; simpl;
    pose proof (G i) as Gi; destruct (op i) as [tr [err|]]; simpl in *; auto.
  specialize (IH (S i)). destruct (DoWithDefaultRetry op (S i) n); simpl in *.
  by apply guarded_app.
Qed.

(** Prove [guarded] of a concrete trace: either it has no irreversible
    action, or its head is a confirmation and what remains is to show that
    it licenses each irreversible action. *)
Ltac guard_list :=
  first [ solve [apply guarded_noIrr; repeat constructor]
        | apply guarded_conf; [reflexivity|];
          let a := fresh "a" in let Ha := fresh "Ha" in let Hi := fresh "Hi" in
          intros a Ha Hi; simpl in Ha;
          repeat (destruct Ha as [<-|Ha]; [try discriminate Hi|]);
          try contradiction ].

Ltac conf_solve :=
  unfold confirms, blockConfirmations; repeat split; try lia;
  try (left; reflexivity); try (right; reflexivity); try eassumption.

Lemma onKeepClosed_guarded (e : Env) (b : Z) :
  guarded (fun s => s = b) (onKeepClosed e b).
Proof.
  unfold onKeepClosed, keepClosedBody, defer, WaitForBlockConfirmations.
  destruct (NotifyClosingStarted e); simpl; [|guard_list].
  destruct (WaitForBlockHeight e (b + blockConfirmations)); simpl; [|guard_list].
  destruct (IsActiveAt e (b + blockConfirmations)) as [[|]|]; simpl; guard_list.
  conf_solve.
Qed.

Lemma onKeepTerminated_guarded (e : Env) (b : Z) :
  guarded (fun s => s = b) (onKeepTerminated e b).
Proof.
  unfold onKeepTerminated, keepTerminatedBody, defer, WaitForBlockConfirmations.
  destruct (NotifyTerminatingStarted e); simpl; [|guard_list].
  destruct (WaitForBlockHeight e (b + blockConfirmations)); simpl; [|guard_list].
  destruct (IsActiveAt e (b + blockConfirmations)) as [[|]|]; simpl; [guard_list| |guard_list].
  pose proof (liquidationRecovery_noIrr e) as HF. rewrite List.Forall_forall in HF.
  destruct (liquidationRecovery e) as [l [[]|]]; simpl in *;
    apply guarded_conf; try reflexivity; intros x Ha Hi; rewrite !in_app_iff in Ha;
    simpl in Ha.
  all: repeat destruct Ha as [Ha|Ha]; try contradiction;
    try (subst x; discriminate Hi); try (rewrite HF in Hi; [discriminate|done]).
  subst x. conf_solve.
Qed.

Lemma guarded_cons_noIrr (trigger : Z -> Prop) (a : event) (l : list event) :
  irreversible a = false -> guarded trigger l -> guarded trigger (a :: l).
Proof.
  intros Ha G. apply (guarded_app trigger [a] l); [|done].
  apply guarded_noIrr. by constructor.
Qed.

Lemma signingRequestOp_guarded (e : Env) (d : Digest) (b : Z) :
  guarded (fun s => s = b) (fst (signingRequestOp e d b)).
Proof.
  unfold signingRequestOp, WaitForBlockConfirmations.
  destruct (NotifySigningStarted e d) as [[|]|]; simpl;
    destruct (WaitForBlockHeight e (b + blockConfirmations)) as [[]|]; simpl;
    destruct (IsAwaitingSignatureAt e d (b + blockConfirmations)) as [[|]|]; simpl;
    destruct (CalculateSignature e d); simpl; guard_list; conf_solve.
Qed.

Lemma awaitingSignatureOp_guarded (trigger : Z -> Prop) (e : Env) (d : Digest) :
  (forall s, SignatureRequestedBlock e d = Ok s -> trigger s) ->
  guarded trigger (fst (awaitingSignatureOp e d)).
Proof.
  intros Htrig. unfold awaitingSignatureOp, WaitForBlockConfirmations.
  repeat (split_match; simpl); guard_list; conf_solve; by apply Htrig.
Qed.

Lemma startupKeep_guarded (e : Env) :
  guarded (fun s => CurrentBlock e = Ok s) (fst (startupKeep e)).
Proof.
  unfold startupKeep, confirmIsInactive, WaitForBlockConfirmations.
  repeat (split_match; simpl); guard_list; conf_solve;
    match goal with H : negb ?v = true |- ?v = false => by destruct v end.
Qed.

Lemma onSignatureRequested_guarded (envs : nat -> Env) (n : nat) (d : Digest) (b : Z) :
  guarded (fun s => s = b) (fst (onSignatureRequested envs n d b)).
Proof.
  unfold onSignatureRequested.
  pose proof (DoWithDefaultRetry_guarded (fun s => s = b)
                (fun i => signingRequestOp (envs i) d b) 0 n
                (fun j => signingRequestOp_guarded (envs j) d b)) as G.
  destruct (DoWithDefaultRetry _ 0 n) as [tr [err|]]; simpl in *; [|done].
  apply guarded_app; [done|]. apply guarded_noIrr. repeat constructor.
Qed.

Lemma checkAwaitingSignature_guarded (e0 : Env) (envs : nat -> Env) (n : nat) :
  guarded (fun s => exists i d, LatestDigest e0 = Ok d /\
                                SignatureRequestedBlock (envs i) d = Ok s)
    (checkAwaitingSignature e0 envs n).
Proof.
  unfold checkAwaitingSignature.
  destruct (LatestDigest e0) as [d|] eqn:EL; [|guard_list].
  destruct (IsAwaitingSignature e0 d) as [[|]|]; [|guard_list|guard_list].
  assert (Gop : forall j,
            guarded (fun s => exists i d, LatestDigest e0 = Ok d /\
                                          SignatureRequestedBlock (envs i) d = Ok s)
              (fst (awaitingSignatureOp (envs j) d))).
  { intros j. apply awaitingSignatureOp_guarded. intros s Hs. exists j, d. split; done. }
  pose proof (DoWithDefaultRetry_guarded _ _ 0 n Gop) as G. rewrite EL in G.
  destruct (DoWithDefaultRetry _ 0 n) as [tr [err|]]; simpl in *;
    apply guarded_cons_noIrr; try done.
  apply guarded_app; [done|]. apply guarded_noIrr. repeat constructor.
Qed.

(** C4: on every path of the client that unregisters a keep or invokes
    signature calculation, the action is preceded in the trace by a
    confirmation that waited until at least [startBlock + 12] and
    re-evaluated the relevant predicate with the confirming value
    ([IsActive] = [false] before unregistering; [IsAwaitingSignature], also
    with [IsActive] on the startup path, = [true] before signing).  The
    start block is the event's block for [Closed], [Terminated] and
    [SignatureRequested] events, the current block for the startup
    inactivity check, and the block of the latest digest's signature
    request for the startup signing check. *)
Theorem C4_irreversible_actions_confirmed :
  (forall e b, guarded (fun s => s = b) (onKeepClosed e b)) /\
  (forall e b, guarded (fun s => s = b) (onKeepTerminated e b)) /\
  (forall envs n d b, guarded (fun s => s = b) (fst (onSignatureRequested envs n d b))) /\
  (forall e0 envs n,
     guarded (fun s => exists i d, LatestDigest e0 = Ok d /\
                                   SignatureRequestedBlock (envs i) d = Ok s)
       (checkAwaitingSignature e0 envs n)) /\
  (forall e, guarded (fun s => CurrentBlock e = Ok s) (fst (startupKeep e))).
Proof.
  repeat split; intros.
  - apply onKeepClosed_guarded.
  - apply onKeepTerminated_guarded.
  - apply onSignatureRequested_guarded.
  - apply checkAwaitingSignature_guarded.
  - apply startupKeep_guarded.
Qed.

(** ** C6: the group checks of [generateKeyForKeep] *)

(** C6: for a group with fewer than two members, or whose honest threshold
    differs from its size, [generateKeyForKeep] only logs an error and
    returns: it neither generates nor registers (persists) a signer. *)
Theorem C6_key_generation_group_checks (e : Env) (members : list string) (th : Z) :
  (Z.of_nat (length members) < 2 \/ th <> Z.of_nat (length members)) ->
  (exists msg, fst (generateKeyForKeep e members th) = [ELog Error msg]) /\
  ~ In EGenerateSigner (fst (generateKeyForKeep e members th)) /\
  ~ In ERegisterSigner (fst (generateKeyForKeep e members th)) /\
  snd (generateKeyForKeep e members th) = None.
Proof.
  intros H. unfold generateKeyForKeep.
  destruct (Z.ltb_spec (Z.of_nat (length members)) 2).
  - repeat split; [eexists; reflexivity|not_in|not_in].
  - destruct (Z.eqb_spec th (Z.of_nat (length members))); [lia|].
    repeat split; [eexists; reflexivity|not_in|not_in].
Qed.

Lemma C6_witness :
  (exists msg, fst (generateKeyForKeep (exampleEnv true true) ["0xop1"] 1) =
               [ELog Error msg]) /\
  ~ In EGenerateSigner (fst (generateKeyForKeep (exampleEnv true true) ["0xop1"] 1)) /\
  ~ In ERegisterSigner (fst (generateKeyForKeep (exampleEnv true true) ["0xop1"] 1)) /\
  snd (generateKeyForKeep (exampleEnv true true) ["0xop1"] 1) = None.
Proof. apply C6_key_generation_group_checks. simpl. lia. Defined.

(** ** C7, C8 and C10: [BroadcastRecoveryAddress] *)

Lemma length_omap_le {A B} (f : A -> option B) (l : list A) :
  (length (omap f l) <= length l)%nat.
Proof. induction l as [|x l IH]; unfold omap in *; simpl; [lia|]. destruct (f x); simpl; lia. Qed.
Lemma length_omap_lt {A B} (f : A -> option B) (l : list A) (x : A) :
  In x l -> f x = None -> (length (omap f l) < length l)%nat.
Proof.
  intros Hin Hx. induction l as [|y l IH]; [done|].
  pose proof (length_omap_le f l) as Hle. unfold omap in *; simpl.
  destruct Hin as [->|Hin]; [rewrite Hx; lia|].
  destruct (f y); simpl; specialize (IH Hin); lia.
Qed.

Section BroadcastProps.

Variable memberIDToAddress : MemberID -> res string.
Variable addr : Type.
Variable DecodeAddress : string -> chainParams -> res addr.
Variable IsForNet : addr -> chainParams -> bool.

Local Abbreviation Validate := (ValidateReceivedBtcAddress addr DecodeAddress IsForNet).
Local Abbreviation record := (recordMessage memberIDToAddress).
Local Abbreviation receive := (receiveLoop memberIDToAddress).
Local Abbreviation missing := (logMissing memberIDToAddress).
Local Abbreviation coll := (collect addr DecodeAddress IsForNet).
Local Abbreviation Broadcast :=
  (BroadcastRecoveryAddress memberIDToAddress addr DecodeAddress IsForNet).
Local Abbreviation keysOf := (keysOfMembers memberIDToAddress).

Lemma recordMessage_keys (members : list MemberID) m msg k :
  is_Some (record members m msg !! k) ->
  is_Some (m !! k) \/ exists mid, In mid members /\ memberIDToAddress mid = Ok k.
Proof.
  induction members as [|mid rest IH]; simpl; [by left|].
  destruct (String.eqb (SenderID msg) mid).
  - destruct (memberIDToAddress mid) as [a|] eqn:Ec; [|by left].
    rewrite lookup_insert_is_Some'. intros [->|H]; [right; exists mid; auto|by left].
  - intros H. destruct (IH H) as [?|(x & ? & ?)]; [by left|right; exists x; auto].
Qed.

Lemma receiveLoop_keys (members : list MemberID) m msgs m' c :
  receive members m msgs = (m', c) ->
  keysOf members m -> keysOf members m'.
Proof.
  revert m; induction msgs as [|msg rest IH]; intros m; simpl.
  - by intros [= <- _].
  - intros Hr Hm.
    assert (Hm' : keysOf members (record members m msg)).
    { intros k Hk. destruct (recordMessage_keys members m msg k Hk) as [H|H];
        [by apply Hm|done]. }
    destruct (Nat.eqb _ _); [by injection Hr as <- _|by apply (IH _ Hr)].
Qed.

Lemma receiveLoop_completed (members : list MemberID) m msgs m' :
  receive members m msgs = (m', true) -> size m' = length members.
Proof.
  revert m; induction msgs as [|msg rest IH]; intros m; simpl; [discriminate|].
  destruct (Nat.eqb_spec (size (record members m msg)) (length members));
    [by intros [= <-] | apply IH].
Qed.

(** A map with as many entries as there are members, all keyed by member
    addresses, has an entry for every member. *)
Lemma all_recorded (members : list MemberID) (m : gmap string recoveryInfo) :
  size m = length members -> keysOf members m ->
  forall mid, In mid members ->
  exists a ri, memberIDToAddress mid = Ok a /\ m !! a = Some ri.
Proof.
  intros Hsize Hkeys mid Hin.
  set (conv := fun x => match memberIDToAddress x with Ok a => Some a | Err _ => None end).
  set (image := omap conv members).
  set (ks := (map_to_list m).*1).
  assert (Hks : length ks = length members)
    by (unfold ks; by rewrite length_fmap, length_map_to_list).
  assert (Hnd : List.NoDup ks) by (apply NoDup_ListNoDup, NoDup_fst_map_to_list).
  assert (Himg : forall x a, In x members -> memberIDToAddress x = Ok a -> In a image).
  { intros x a Hx Ha. apply list_elem_of_In, list_elem_of_omap. exists x.
    split; [by apply list_elem_of_In|]. unfold conv. by rewrite Ha. }
  assert (Hincl : incl ks image).
  { intros k Hk. apply list_elem_of_In, list_elem_of_fmap in Hk as ([k' ri] & -> & Hk).
    apply elem_of_map_to_list in Hk. destruct (Hkeys k') as (x & Hx & Ha); [by exists ri|].
    by apply (Himg x). }
  pose proof (length_omap_le conv members) as Hle. fold image in Hle.
  destruct (memberIDToAddress mid) as [a|] eqn:Ec.
  - destruct (m !! a) as [ri|] eqn:Em; [by exists a, ri|exfalso].
    assert (Hnd' : List.NoDup (a :: ks)).
    { constructor; [|done]. intros Ha. apply list_elem_of_In, list_elem_of_fmap in Ha
        as ([k' ri] & Heq & Hk). simpl in Heq; subst k'.
      apply elem_of_map_to_list in Hk. congruence. }
    assert (Hincl' : incl (a :: ks) image).
    { intros x [<-|Hx]; [by apply (Himg mid)|by apply Hincl]. }
    pose proof (List.NoDup_incl_length Hnd' Hincl') as Hl. simpl in Hl. lia.
  - exfalso. pose proof (length_omap_lt conv members mid Hin) as Hlt.
    assert (Hc : conv mid = None) by (unfold conv; by rewrite Ec).
    specialize (Hlt Hc).
    pose proof (List.NoDup_incl_length Hnd Hincl). fold image in Hlt. lia.
Qed.

Lemma collect_inr (p : chainParams) entries acc fee outs f :
  coll p entries acc fee = inr (outs, f) ->
  Forall (fun kv => Validate (btcRecoveryAddress kv.2) p = None) entries /\
  outs = acc ++ map (fun kv => btcRecoveryAddress kv.2) entries.
Proof.
  revert acc fee; induction entries as [|[k ri] rest IH]; intros acc fee; simpl.
  - intros [= <- _]. by rewrite app_nil_r.
  - destruct (Validate (btcRecoveryAddress ri) p) eqn:Ev; [discriminate|].
    intros H. destruct (IH _ _ H) as [HF ->].
    split; [by constructor|]. by rewrite <- app_assoc.
Qed.

Lemma collect_inl (p : chainParams) entries acc fee err :
  coll p entries acc fee = inl err ->
  exists k ri inner, In (k, ri) entries /\
    err = ErrValidate (btcRecoveryAddress ri) k inner /\
    Validate (btcRecoveryAddress ri) p = Some inner.
Proof.
  revert acc fee; induction entries as [|[k ri] rest IH]; intros acc fee; simpl;
    [discriminate|].
  destruct (Validate (btcRecoveryAddress ri) p) as [inner|] eqn:Ev.
  - intros [= <-]. exists k, ri, inner. auto.
  - intros H. destruct (IH _ _ H) as (k' & ri' & inner & Hin & Herr & Hv).
    exists k', ri', inner. auto.
Qed.

Lemma logMissing_spec (members : list MemberID) (m : gmap string recoveryInfo) a :
  In (LogMissing a) (missing members m) <->
  exists mid, In mid members /\ memberIDToAddress mid = Ok a /\ m !! a = None.
Proof.
  induction members as [|mid rest IH]; simpl.
  - split; [done|]. by intros (? & [] & _).
  - destruct (memberIDToAddress mid) as [b|] eqn:Ec; [destruct (m !! b) eqn:Em|].
    + rewrite IH. split; [intros (x & ? & ? & ?); exists x; auto|].
      intros (x & [<-|Hx] & Hc & Hm); [congruence|exists x; auto].
    + simpl. rewrite IH. split.
      * intros [Heq|(x & ? & ? & ?)]; [injection Heq as <-; exists mid; auto|].
        exists x. auto.
      * intros (x & [<-|Hx] & Hc & Hm); [left; congruence|right; exists x; auto].
    + simpl. rewrite IH. split.
      * intros [Heq|(x & ? & ? & ?)]; [discriminate|exists x; auto].
      * intros (x & [<-|Hx] & Hc & Hm); [congruence|right; exists x; auto].
Qed.

Lemma map_to_list_valid (p : chainParams) (m : gmap string recoveryInfo) :
  Forall (fun kv => Validate (btcRecoveryAddress kv.2) p = None) (map_to_list m) <->
  map_Forall (fun _ ri => Validate (btcRecoveryAddress ri) p = None) m.
Proof.
  rewrite map_Forall_to_list.
  split; intros H; (eapply Forall_impl; [exact H|]); by intros [k ri].
Qed.

Lemma keysOf_size_le (members : list MemberID) (m : gmap string recoveryInfo) :
  keysOf members m -> (size m <= length members)%nat.
Proof.
  intros Hk.
  set (conv := fun x => match memberIDToAddress x with Ok a => Some a | Err _ => None end).
  set (ks := (map_to_list m).*1).
  assert (Hks : length ks = size m)
    by (unfold ks; by rewrite length_fmap, length_map_to_list).
  assert (Hnd : List.NoDup ks) by (apply NoDup_ListNoDup, NoDup_fst_map_to_list).
  assert (Hincl : incl ks (omap conv members)).
  { intros k Hin. apply list_elem_of_In, list_elem_of_fmap in Hin as ([k' ri] & -> & Hin).
    apply elem_of_map_to_list in Hin. destruct (Hk k') as (x & Hx & Ha); [by exists ri|].
    apply list_elem_of_In, list_elem_of_omap. exists x.
    split; [by apply list_elem_of_In|]. unfold conv. by rewrite Ha. }
  pose proof (List.NoDup_incl_length Hnd Hincl).
  pose proof (length_omap_le conv members). unfold omap in *. lia.
Qed.

Lemma members_size_le (members : list MemberID) (m : gmap string recoveryInfo) :
  List.NoDup members ->
  (forall x y a, In x members -> In y members ->
     memberIDToAddress x = Ok a -> memberIDToAddress y = Ok a -> x = y) ->
  (forall mid, In mid members -> exists a, memberIDToAddress mid = Ok a /\ is_Some (m !! a)) ->
  (length members <= size m)%nat.
Proof.
  intros Hnd Hinj Hall.
  set (f := fun x => match memberIDToAddress x with Ok a => a | Err _ => EmptyString end).
  set (ks := (map_to_list m).*1).
  assert (Hks : length ks = size m)
    by (unfold ks; by rewrite length_fmap, length_map_to_list).
  assert (Hnd' : List.NoDup (map f members)).
  { apply NoDup_map_NoDup_ForallPairs; [|done]. intros x y Hx Hy Hf.
    destruct (Hall x Hx) as (a & Ha & _). destruct (Hall y Hy) as (b & Hb & _).
    unfold f in Hf. rewrite Ha, Hb in Hf. subst b. by apply (Hinj x y a). }
  assert (Hincl : incl (map f members) ks).
  { intros k Hk. apply in_map_iff in Hk as (x & <- & Hx).
    destruct (Hall x Hx) as (a & Ha & [ri Hri]). unfold f. rewrite Ha.
    apply list_elem_of_In, list_elem_of_fmap. exists (a, ri). split; [done|].
    by apply elem_of_map_to_list. }
  pose proof (List.NoDup_incl_length Hnd' Hincl). rewrite length_map in *. lia.
Qed.

Lemma recordMessage_origin (members : list MemberID) m msg k :
  is_Some (record members m msg !! k) ->
  is_Some (m !! k) \/
  exists mid, In mid members /\ SenderID msg = mid /\ memberIDToAddress mid = Ok k.
Proof.
  induction members as [|mid rest IH]; simpl; [by left|].
  destruct (String.eqb_spec (SenderID msg) mid) as [Heq|Hne].
  - destruct (memberIDToAddress mid) as [a|] eqn:Ec; [|by left].
    rewrite lookup_insert_is_Some'. intros [->|H]; [right; exists mid; auto|by left].
  - intros H. destruct (IH H) as [?|(x & ? & ? & ?)]; [by left|right; exists x; auto].
Qed.

Lemma recordMessage_mono (members : list MemberID) m msg k :
  is_Some (m !! k) -> is_Some (record members m msg !! k).
Proof.
  induction members as [|mid rest IH]; simpl; [done|]. intros H.
  destruct (String.eqb (SenderID msg) mid); [|by apply IH].
  destruct (memberIDToAddress mid); [|done].
  rewrite lookup_insert_is_Some'. by right.
Qed.

Lemma recordMessage_sender (members : list MemberID) m msg a :
  In (SenderID msg) members -> memberIDToAddress (SenderID msg) = Ok a ->
  is_Some (record members m msg !! a).
Proof.
  induction members as [|mid rest IH]; simpl; [done|]. intros Hin Hc.
  destruct (String.eqb_spec (SenderID msg) mid) as [<-|Hne].
  - rewrite Hc. rewrite lookup_insert_is_Some'. by left.
  - apply IH; [|done]. destruct Hin; [congruence|done].
Qed.

Lemma receiveLoop_origin (members : list MemberID) m msgs k :
  is_Some (fst (receive members m msgs) !! k) ->
  is_Some (m !! k) \/
  exists msg mid, In msg msgs /\ In mid members /\ SenderID msg = mid /\
                  memberIDToAddress mid = Ok k.
Proof.
  revert m; induction msgs as [|msg rest IH]; intros m; simpl; [by left|].
  intros H.
  assert (Hr : is_Some (record members m msg !! k) ->
               is_Some (m !! k) \/
               exists msg' mid, (msg = msg' \/ In msg' rest) /\ In mid members /\
                 SenderID msg' = mid /\ memberIDToAddress mid = Ok k).
  { intros Hk. destruct (recordMessage_origin members m msg k Hk) as [?|(mid & ? & ? & ?)];
      [by left|right; exists msg, mid; auto]. }
  destruct (Nat.eqb _ _); simpl in H; [by apply Hr|].
  destruct (IH _ H) as [Hk|(msg' & mid & ? & ? & ? & ?)]; [by apply Hr|].
  right. exists msg', mid. auto.
Qed.

Lemma receiveLoop_mono (members : list MemberID) m msgs k :
  is_Some (m !! k) -> is_Some (fst (receive members m msgs) !! k).
Proof.
  revert m; induction msgs as [|msg rest IH]; intros m; simpl; [done|]. intros H.
  pose proof (recordMessage_mono members m msg k H).
  destruct (Nat.eqb _ _); simpl; [done|by apply IH].
Qed.

Lemma receiveLoop_sender (members : list MemberID) m msgs msg a :
  keysOf members m -> In msg msgs -> In (SenderID msg) members ->
  memberIDToAddress (SenderID msg) = Ok a ->
  is_Some (fst (receive members m msgs) !! a).
Proof.
  revert m; induction msgs as [|msg0 rest IH]; intros m Hk Hin Hs Hc; [done|]. simpl.
  assert (Hk' : keysOf members (record members m msg0)).
  { intros k Hks. destruct (recordMessage_keys members m msg0 k Hks)
      as [H|H]; [by apply Hk|done]. }
  destruct (Nat.eqb_spec (size (record members m msg0)) (length members)) as [Hsz|Hsz]; simpl.
  - destruct (all_recorded members _ Hsz Hk' (SenderID msg) Hs)
      as (a' & ri & Ha' & Hri). rewrite Hc in Ha'. injection Ha' as <-. by exists ri.
  - destruct Hin as [<-|Hin].
    + apply receiveLoop_mono. by apply recordMessage_sender.
    + by apply IH.
Qed.

Lemma receiveLoop_completes (members : list MemberID) m msgs :
  List.NoDup members ->
  (forall mid, In mid members -> exists a, memberIDToAddress mid = Ok a) ->
  (forall x y a, In x members -> In y members ->
     memberIDToAddress x = Ok a -> memberIDToAddress y = Ok a -> x = y) ->
  keysOf members m -> size m <> length members ->
  (forall mid, In mid members ->
     (exists a, memberIDToAddress mid = Ok a /\ is_Some (m !! a)) \/
     exists msg, In msg msgs /\ SenderID msg = mid) ->
  snd (receive members m msgs) = true.
Proof.
  intros Hnd Hconv Hinj.
  revert m; induction msgs as [|msg rest IH]; intros m Hk Hsz Hall; simpl.
  - exfalso. apply Hsz.
    pose proof (keysOf_size_le members m Hk).
    assert (length members <= size m)%nat; [|lia].
    apply members_size_le; [done|done|]. intros mid Hmid.
    by destruct (Hall mid Hmid) as [?|(? & [] & _)].
  - destruct (Nat.eqb_spec (size (record members m msg)) (length members)) as [|Hsz'];
      [done|].
    apply IH; [|done|].
    + intros k Hks. destruct (recordMessage_keys members m msg k Hks)
        as [H|H]; [by apply Hk|done].
    + intros mid Hmid. destruct (Hall mid Hmid) as [(a & Ha & Hs)|(msg' & [<-|Hin] & Hsd)].
      * left. exists a. split; [done|]. by apply recordMessage_mono.
      * left. destruct (Hconv mid Hmid) as [a Ha]. exists a. split; [done|].
        apply recordMessage_sender; [by rewrite Hsd|by rewrite Hsd].
      * right. by exists msg'.
Qed.


(** C7 (amended): for a group of distinct member IDs that map to distinct
    addresses, when the context is ended by its 2-minute deadline (no
    cancellation of the parent context), [BroadcastRecoveryAddress]
    returns an address list exactly when every group member's announcement
    was received before the deadline and every recorded address validates.
    When some member did not announce, it returns the timeout error instead
    of a list, and its log names, by address, exactly the members from
    which no announcement was received. *)
Theorem C7_broadcast_outcome (p : chainParams) (members : list MemberID)
    (msgs : list announceMessage) (ended : ctxErr) :
  ended = DeadlineExceeded -> members <> [] -> List.NoDup members ->
  (forall mid, In mid members -> exists a, memberIDToAddress mid = Ok a) ->
  (forall x y a, In x members -> In y members ->
     memberIDToAddress x = Ok a -> memberIDToAddress y = Ok a -> x = y) ->
  ((exists outs fee, snd (Broadcast p members msgs ended) = inr (outs, fee)) <->
   (forall mid, In mid members -> exists msg, In msg msgs /\ SenderID msg = mid) /\
   map_Forall (fun _ ri => Validate (btcRecoveryAddress ri) p = None)
     (fst (receive members ∅ msgs))) /\
  (~ (forall mid, In mid members -> exists msg, In msg msgs /\ SenderID msg = mid) ->
   Broadcast p members msgs ended =
     (missing members (fst (receive members ∅ msgs)), inl ErrTimeout) /\
   forall a, In (LogMissing a) (fst (Broadcast p members msgs ended)) <->
     exists mid, In mid members /\ memberIDToAddress mid = Ok a /\
                 ~ exists msg, In msg msgs /\ SenderID msg = mid).
Proof.
  intros -> Hne Hnd Hconv Hinj.
  assert (Hk0 : keysOf members ∅)
    by (intros k Hk; rewrite lookup_empty in Hk; by destruct Hk).
  (* the loop stops on a full map exactly when every member announced *)
  assert (Hdone : snd (receive members ∅ msgs) = true <->
                  forall mid, In mid members -> exists msg, In msg msgs /\ SenderID msg = mid).
  { split.
    - intros Hc mid Hmid.
      destruct (receive members ∅ msgs) as [m c] eqn:Er; simpl in Hc; subst c.
      pose proof (receiveLoop_completed members ∅ msgs m Er) as Hsz.
      pose proof (receiveLoop_keys members ∅ msgs m true Er Hk0) as Hk.
      destruct (all_recorded members m Hsz Hk mid Hmid)
        as (a & ri & Ha & Hri).
      destruct (receiveLoop_origin members ∅ msgs a) as [H|(msg & mid' & Hin & Hm' & Hs & Hc)].
      + rewrite Er. by exists ri.
      + rewrite lookup_empty in H. by destruct H.
      + exists msg. split; [done|]. rewrite Hs. by apply (Hinj mid' mid a).
    - intros Hall. apply receiveLoop_completes; [done|done|done|done| |].
      + rewrite map_size_empty. destruct members; [done|]. simpl. lia.
      + intros mid Hmid. right. by apply Hall. }
  (* a member's entry is missing exactly when it did not announce *)
  assert (Hentry : forall mid a, In mid members -> memberIDToAddress mid = Ok a ->
            fst (receive members ∅ msgs) !! a = None <->
            ~ exists msg, In msg msgs /\ SenderID msg = mid).
  { intros mid a Hmid Ha. split.
    - intros Hn (msg & Hin & Hs).
      assert (Hsm : is_Some (fst (receive members ∅ msgs) !! a)).
      { apply (receiveLoop_sender members ∅ msgs msg a Hk0 Hin); by rewrite Hs. }
      rewrite Hn in Hsm. by destruct Hsm.
    - intros Hno. destruct (fst (receive members ∅ msgs) !! a) as [ri|] eqn:Ef; [|done].
      exfalso. destruct (receiveLoop_origin members ∅ msgs a) as [H|(msg & mid' & Hin & Hm' & Hs & Hc)].
      + rewrite Ef. by exists ri.
      + rewrite lookup_empty in H. by destruct H.
      + apply Hno. exists msg. split; [done|]. rewrite Hs. by apply (Hinj mid' mid a). }
  unfold BroadcastRecoveryAddress.
  destruct (receive members ∅ msgs) as [m c] eqn:Er; simpl in *.
  split.
  - rewrite <- Hdone. destruct c; simpl; [|split; [by intros (? & ? & ?)|by intros [? _]]].
    rewrite <- map_to_list_valid.
    destruct (coll p (map_to_list m) [] MaxInt32) as [err|[outs f]] eqn:Ec.
    + split; [by intros (? & ? & ?)|]. intros [_ HF].
      apply collect_inl in Ec as (k & ri & inner & Hin & _ & Hv).
      rewrite List.Forall_forall in HF. specialize (HF _ Hin). simpl in HF. congruence.
    + apply collect_inr in Ec as [HF _]. split; [intros _; done|]. intros _. by eexists _, _.
  - intros Hnot. rewrite <- Hdone in Hnot. destruct c; [done|]. simpl.
    split; [done|]. intros a. rewrite logMissing_spec.
    split; intros (mid & Hmid & Ha & H); exists mid; (split; [done|]); (split; [done|]);
      by apply (Hentry mid a Hmid Ha).
Qed.

(** C8: every address list [BroadcastRecoveryAddress] returns is the
    sorted list of the recorded announcements' addresses, each of which
    passed [ValidateReceivedBtcAddress]; so if any recorded address fails
    validation no list is returned.  Every error it returns is the timeout
    or names a recorded address, its member, and the validation failure. *)
Theorem C8_addresses_validated (p : chainParams) (members : list MemberID)
    (msgs : list announceMessage) (ended : ctxErr) :
  match snd (Broadcast p members msgs ended) with
  | inr (outs, _) =>
      Permutation outs (map (fun kv => btcRecoveryAddress kv.2)
                          (map_to_list (fst (receive members ∅ msgs)))) /\
      Forall (fun a => Validate a p = None) outs /\
      map_Forall (fun _ ri => Validate (btcRecoveryAddress ri) p = None)
        (fst (receive members ∅ msgs))
  | inl err =>
      err = ErrTimeout \/
      exists k ri inner, fst (receive members ∅ msgs) !! k = Some ri /\
        err = ErrValidate (btcRecoveryAddress ri) k inner /\
        Validate (btcRecoveryAddress ri) p = Some inner
  end.
Proof.
  unfold BroadcastRecoveryAddress. destruct (receive members ∅ msgs) as [m c]; simpl.
  destruct (if c then Canceled else ended); simpl; [|by left].
  destruct (coll p (map_to_list m) [] MaxInt32) as [err|[outs f]] eqn:Ec; simpl.
  - right. apply collect_inl in Ec as (k & ri & inner & Hin & -> & Hv).
    exists k, ri, inner. split; [|done]. by apply elem_of_map_to_list, list_elem_of_In.
  - apply collect_inr in Ec as [HF ->]. simpl. unfold sort_Strings.
    split; [apply merge_sort_Permutation|].
    split; [|by apply map_to_list_valid].
    apply List.Forall_forall. intros a Ha.
    apply (Permutation_in _ (merge_sort_Permutation _ _)) in Ha.
    apply in_map_iff in Ha as (kv & <- & Hkv).
    rewrite List.Forall_forall in HF. by apply HF.
Qed.

End BroadcastProps.

(** Claim C7, as stated, fails: every member's announcement is received
    before the deadline (the receiving loop stops on a full map), yet
    [BroadcastRecoveryAddress] returns an error, because one received
    address cannot be decoded. *)
Lemma C7_counterexample :
  snd (exampleReceive exampleAnnouncements) = true /\
  exampleBroadcast exampleAnnouncements DeadlineExceeded =
  ([LogGathered],
   inl (ErrValidate "not-an-address" "0xm2" (ErrDecode "not-an-address" "mainnet"))).
Proof. split; vm_compute; reflexivity. Qed.

(** Announcements with valid addresses from all three members of
    [exampleBroadcast]'s group. *)
Lemma C7_witness :
  DeadlineExceeded = DeadlineExceeded /\ ["m1"; "m2"; "m3"] <> [] /\
  List.NoDup ["m1"; "m2"; "m3"] /\
  (forall mid, In mid ["m1"; "m2"; "m3"] -> exists a, exampleMemberIDToAddress mid = Ok a) /\
  (forall x y a, In x ["m1"; "m2"; "m3"] -> In y ["m1"; "m2"; "m3"] ->
     exampleMemberIDToAddress x = Ok a -> exampleMemberIDToAddress y = Ok a -> x = y) /\
  (exists outs fee,
     snd (exampleBroadcast [mkAnnounce "m1" "A1" 40; mkAnnounce "m2" "A2" 30;
                            mkAnnounce "m3" "A3" 35] DeadlineExceeded) = inr (outs, fee)) /\
  exampleBroadcast [mkAnnounce "m1" "A1" 40] DeadlineExceeded =
    (logMissing exampleMemberIDToAddress ["m1"; "m2"; "m3"]
       (fst (exampleReceive [mkAnnounce "m1" "A1" 40])), inl ErrTimeout) /\
  In (LogMissing "0xm2") (fst (exampleBroadcast [mkAnnounce "m1" "A1" 40] DeadlineExceeded)).
Proof.
  assert (Hne : ["m1"; "m2"; "m3"] <> []) by discriminate.
  assert (Hnd : List.NoDup ["m1"; "m2"; "m3"])
    by (repeat (constructor; [simpl; intuition congruence|]); constructor).
  assert (Hconv : forall mid, In mid ["m1"; "m2"; "m3"] ->
                  exists a, exampleMemberIDToAddress mid = Ok a)
    by (intros mid _; eexists; reflexivity).
  assert (Hinj : forall x y a, In x ["m1"; "m2"; "m3"] -> In y ["m1"; "m2"; "m3"] ->
            exampleMemberIDToAddress x = Ok a -> exampleMemberIDToAddress y = Ok a -> x = y).
  { intros x y a Hx Hy. unfold exampleMemberIDToAddress. intros H1 H2. rewrite <- H2 in H1.
    destruct Hx as [<-|[<-|[<-|[]]]]; destruct Hy as [<-|[<-|[<-|[]]]];
      (reflexivity || discriminate). }
  split; [reflexivity|]. do 4 (split; [assumption|]).
  pose proof (C7_broadcast_outcome exampleMemberIDToAddress string exampleDecodeAddress
    exampleIsForNet mainnet ["m1"; "m2"; "m3"]
    [mkAnnounce "m1" "A1" 40; mkAnnounce "m2" "A2" 30; mkAnnounce "m3" "A3" 35]
    DeadlineExceeded eq_refl Hne Hnd Hconv Hinj) as [Hok _].
  pose proof (C7_broadcast_outcome exampleMemberIDToAddress string exampleDecodeAddress
    exampleIsForNet mainnet ["m1"; "m2"; "m3"] [mkAnnounce "m1" "A1" 40]
    DeadlineExceeded eq_refl Hne Hnd Hconv Hinj) as [_ Hto].
  split.
  - apply Hok. split.
    + intros mid [<-|[<-|[<-|[]]]].
      * exists (mkAnnounce "m1" "A1" 40). split; [left; reflexivity|reflexivity].
      * exists (mkAnnounce "m2" "A2" 30). split; [right; left; reflexivity|reflexivity].
      * exists (mkAnnounce "m3" "A3" 35). split; [right; right; left; reflexivity|reflexivity].
    + apply map_Forall_to_list. vm_compute. repeat constructor.
  - assert (Hnot : ~ (forall mid, In mid ["m1"; "m2"; "m3"] ->
                      exists msg, In msg [mkAnnounce "m1" "A1" 40] /\ SenderID msg = mid)).
    { intros H. destruct (H "m2") as (msg & [<-|[]] & Hs); [right; left; reflexivity|].
      discriminate. }
    destruct (Hto Hnot) as [Heq Hlog]. split; [exact Heq|].
    apply Hlog. exists "m2". split; [right; left; reflexivity|]. split; [reflexivity|].
    intros (msg & [<-|[]] & Hs). discriminate.
Defined.

(** C10 (divergence): one member's announcement is received and the parent
    context is then cancelled.  The receiving loop did not complete, but
    the context reports [Canceled], which [BroadcastRecoveryAddress] takes
    for the end of a complete exchange: it logs that it gathered all
    addresses and returns a one-address list for a three-member group. *)
Theorem C10_parent_cancel_partial_success :
  snd (exampleReceive [mkAnnounce "m1" "A1" 40]) = false /\
  exampleBroadcast [mkAnnounce "m1" "A1" 40] Canceled =
  ([LogGathered], inr (["A1"], 40)).
Proof. split; vm_compute; reflexivity. Qed.

(** ** C9: the startup key-generation scan *)

Lemma In_log_cons (x : event) (lvl : level) (msg : string) (l : list event) :
  In x (ELog lvl msg :: l) <-> ELog lvl msg = x \/ In x l.
Proof. done. Qed.

Lemma checkForKeep_origin (se : ScanEnv) (kj : keep) (x : string) :
  In (EGenerateKeyForKeep x) (fst (checkAwaitingKeyGenerationForKeep se kj)) ->
  x = keepID kj.
Proof.
  unfold checkAwaitingKeyGenerationForKeep.
  repeat (split_match; simpl); try not_in.
  intros [H|[]]. by injection H.
Qed.

Lemma checkForKeep_spec (se : ScanEnv) (k : keep) pk ms th :
  GetPublicKey se k = Ok pk -> GetKeepMembers se k = Ok ms ->
  GetHonestThreshold se k = Ok th ->
  In (EGenerateKeyForKeep (keepID k)) (fst (checkAwaitingKeyGenerationForKeep se k)) <->
  In (Address se) ms /\ pk = [] /\ HasSigner se (keepID k) = false.
Proof.
  intros Hpk Hmem Hth. unfold checkAwaitingKeyGenerationForKeep.
  rewrite Hpk. destruct pk as [|z pk]; simpl;
    [|split; [done|by intros (_ & ? & _)]].
  destruct (HasSigner se (keepID k)); simpl;
    [split; [not_in|by intros (_ & _ & ?)]|].
  rewrite Hmem, Hth.
  destruct (existsb (String.eqb (Address se)) ms) eqn:Ex; simpl.
  - apply existsb_exists in Ex as (y & Hy & Heq). apply String.eqb_eq in Heq. subst y.
    split; [done|]. intros _. by left.
  - split; [done|]. intros (Hin & _ & _).
    assert (existsb (String.eqb (Address se)) ms = true) as Ht; [|congruence].
    apply existsb_exists. exists (Address se). split; [done|apply String.eqb_refl].
Qed.

Lemma scanLoop_origin (se : ScanEnv) (fuel : nat) (i : Z) (x : string) :
  In (EGenerateKeyForKeep x) (scanLoop se fuel i) ->
  exists j kj, 0 <= j <= i /\ GetKeepAtIndex se j = Ok kj /\ keepID kj = x.
Proof.
  revert i; induction fuel as [|f IH]; intros i; simpl; [done|].
  destruct (Z.ltb_spec i 0) as [Hneg|Hnn]; [done|].
  rewrite In_log_cons. intros [H|H]; [discriminate|].
  destruct (GetKeepAtIndex se i) as [ki|] eqn:Eki.
  - destruct (GetOpenedTimestamp se ki) as [ti|].
    + destruct (ti + AwaitingKeyGenerationLookback se <? Now se i); [revert H; not_in|].
      pose proof (checkForKeep_origin se ki x) as Ho.
      destruct (checkAwaitingKeyGenerationForKeep se ki) as [tr err]; simpl in Ho.
      rewrite !in_app_iff in H. destruct H as [H|[H|H]].
      * exists i, ki. split; [lia|]. split; [done|]. by rewrite (Ho H).
      * destruct err; revert H; not_in.
      * destruct (IH _ H) as (j & kj & ? & ? & ?). exists j, kj. split; [lia|done].
    + rewrite In_log_cons in H. destruct H as [H|H]; [discriminate|].
      destruct (IH _ H) as (j & kj & ? & ? & ?). exists j, kj. split; [lia|done].
  - rewrite In_log_cons in H. destruct H as [H|H]; [discriminate|].
    destruct (IH _ H) as (j & kj & ? & ? & ?). exists j, kj. split; [lia|done].
Qed.

Lemma range_split (P : Z -> Prop) (idx i : Z) :
  idx < i ->
  (forall j, idx < j <= i -> P j) <-> P i /\ (forall j, idx < j <= i - 1 -> P j).
Proof.
  intros Hlt. split.
  - intros H. split; [apply H; lia|]. intros j Hj. apply H. lia.
  - intros [Hi H] j Hj. destruct (Z.eq_dec j i) as [->|Hne]; [done|]. apply H. lia.
Qed.

Lemma scanLoop_spec (se : ScanEnv) (fuel : nat) (i idx : Z) (k : keep) t pk ms th :
  Z.of_nat fuel = i + 1 -> 0 <= idx <= i ->
  GetKeepAtIndex se idx = Ok k -> GetOpenedTimestamp se k = Ok t ->
  GetPublicKey se k = Ok pk -> GetKeepMembers se k = Ok ms ->
  GetHonestThreshold se k = Ok th ->
  (forall j kj, 0 <= j <= i -> GetKeepAtIndex se j = Ok kj ->
                keepID kj = keepID k -> j = idx) ->
  In (EGenerateKeyForKeep (keepID k)) (scanLoop se fuel i) <->
  (forall j, idx < j <= i -> stopsAt se j = false) /\ stopsAt se idx = false /\
  In (Address se) ms /\ pk = [] /\ HasSigner se (keepID k) = false.
Proof.
  intros Hfuel Hidx Hk Hts Hpk Hmem Hth Huniq.
  revert i Hfuel Hidx Huniq; induction fuel as [|f IH]; intros i Hfuel Hidx Huniq;
    [simpl in Hfuel; lia|].
  simpl. destruct (Z.ltb_spec i 0) as [Hneg|Hnn]; [lia|].
  rewrite In_log_cons. split; [intros [H|H]; [discriminate|revert H]|intros H; right; revert H].
  all: destruct (Z.eq_dec i idx) as [->|Hne].
  - (* the keep itself, trace to condition *)
    unfold stopsAt. rewrite Hk, Hts.
    destruct (Z.ltb_spec (t + AwaitingKeyGenerationLookback se) (Now se idx))
      as [Hlt|Hge]; [not_in|].
    pose proof (checkForKeep_spec se k pk ms th Hpk Hmem Hth) as Hs.
    destruct (checkAwaitingKeyGenerationForKeep se k) as [tr err]; simpl in Hs.
    rewrite !in_app_iff. intros [H|[H|H]].
    + split; [intros j Hj; lia|]. split; [done|]. by apply Hs.
    + destruct err; revert H; not_in.
    + apply scanLoop_origin in H as (j & kj & Hj & Hkj & Hid).
      pose proof (Huniq j kj ltac:(lia) Hkj Hid). lia.
  - (* a newer keep, trace to condition *)
    rewrite (range_split _ idx i ltac:(lia)).
    assert (IH' : In (EGenerateKeyForKeep (keepID k)) (scanLoop se f (i - 1)) ->
                  (forall j, idx < j <= i - 1 -> stopsAt se j = false) /\
                  stopsAt se idx = false /\
                  In (Address se) ms /\ pk = [] /\ HasSigner se (keepID k) = false).
    { apply IH; [lia|lia|]. intros j kj Hj. apply Huniq. lia. }
    unfold stopsAt at 1.
    destruct (GetKeepAtIndex se i) as [ki|] eqn:Eki.
    + destruct (GetOpenedTimestamp se ki) as [ti|].
      * destruct (ti + AwaitingKeyGenerationLookback se <? Now se i); [not_in|].
        pose proof (checkForKeep_origin se ki (keepID k)) as Ho.
        destruct (checkAwaitingKeyGenerationForKeep se ki) as [tr err]; simpl in Ho.
        rewrite !in_app_iff. intros [H|[H|H]].
        -- apply Ho in H. pose proof (Huniq i ki ltac:(lia) Eki (eq_sym H)). lia.
        -- destruct err; revert H; not_in.
        -- destruct (IH' H) as (? & ?). done.
      * rewrite In_log_cons. intros [H|H]; [discriminate|]. destruct (IH' H). done.
    + rewrite In_log_cons. intros [H|H]; [discriminate|]. destruct (IH' H). done.
  - (* the keep itself, condition to trace *)
    intros (_ & Hstop & Hcond). unfold stopsAt in Hstop. rewrite Hk, Hts in Hstop.
    rewrite Hk, Hts, Hstop.
    pose proof (checkForKeep_spec se k pk ms th Hpk Hmem Hth) as Hs.
    destruct (checkAwaitingKeyGenerationForKeep se k) as [tr err]; simpl in Hs.
    apply in_or_app. left. by apply Hs.
  - (* a newer keep, condition to trace *)
    rewrite (range_split _ idx i ltac:(lia)). intros [[Hi Hrange] Hrest].
    assert (IH' : In (EGenerateKeyForKeep (keepID k)) (scanLoop se f (i - 1))).
    { apply IH; [lia|lia| |done]. intros j kj Hj. apply Huniq. lia. }
    unfold stopsAt in Hi.
    destruct (GetKeepAtIndex se i) as [ki|]; [|by right].
    destruct (GetOpenedTimestamp se ki) as [ti|]; [|by right].
    rewrite Hi. destruct (checkAwaitingKeyGenerationForKeep se ki) as [tr err].
    rewrite !in_app_iff. by right; right.
Qed.

(** Claim C9, as stated, fails: the keep at index 0 is within the lookback
    window, this node is a member, the on-chain public key is empty and no
    signer is stored, but the read of its members fails, so the scan skips
    it and key generation is never started for it. *)
Lemma C9_counterexample :
  stopsAt (exampleScanEnv false) 0 = false /\
  In (Address (exampleScanEnv false)) (keepMembers exampleKeep) /\
  publicKey exampleKeep = [] /\
  HasSigner (exampleScanEnv false) (keepID exampleKeep) = false /\
  ~ In (EGenerateKeyForKeep (keepID exampleKeep))
      (checkAwaitingKeyGeneration (exampleScanEnv false)).
Proof.
  split; [reflexivity|]. split; [by left|]. split; [reflexivity|].
  split; [reflexivity|]. vm_compute. not_in.
Qed.

Lemma checkForKeep_reads (se : ScanEnv) (k : keep) (x : string) :
  In (EGenerateKeyForKeep x) (fst (checkAwaitingKeyGenerationForKeep se k)) ->
  (exists pk, GetPublicKey se k = Ok pk) /\ (exists ms, GetKeepMembers se k = Ok ms) /\
  (exists th, GetHonestThreshold se k = Ok th).
Proof.
  unfold checkAwaitingKeyGenerationForKeep.
  destruct (GetPublicKey se k) as [pk|]; simpl; [|not_in].
  destruct (negb _); simpl; [not_in|]. destruct (HasSigner se (keepID k)); simpl; [not_in|].
  destruct (GetKeepMembers se k) as [ms|]; simpl; [|not_in].
  destruct (GetHonestThreshold se k) as [th|]; simpl; [|not_in].
  intros _. split; [by exists pk|]. split; [by exists ms|by exists th].
Qed.

(** Every key generation the scan starts comes from the check of a keep
    it reached, whose opening timestamp it read. *)
Lemma scanLoop_origin_check (se : ScanEnv) (fuel : nat) (i : Z) (x : string) :
  In (EGenerateKeyForKeep x) (scanLoop se fuel i) ->
  exists j kj t, 0 <= j <= i /\ GetKeepAtIndex se j = Ok kj /\
    GetOpenedTimestamp se kj = Ok t /\
    In (EGenerateKeyForKeep x) (fst (checkAwaitingKeyGenerationForKeep se kj)).
Proof.
  revert i; induction fuel as [|f IH]; intros i; simpl; [done|].
  destruct (Z.ltb_spec i 0) as [Hneg|Hnn]; [done|].
  rewrite In_log_cons. intros [H|H]; [discriminate|].
  destruct (GetKeepAtIndex se i) as [ki|] eqn:Eki.
  - destruct (GetOpenedTimestamp se ki) as [ti|] eqn:Eti.
    + destruct (ti + AwaitingKeyGenerationLookback se <? Now se i); [revert H; not_in|].
      destruct (checkAwaitingKeyGenerationForKeep se ki) as [tr err] eqn:Ec.
      rewrite !in_app_iff in H. destruct H as [H|[H|H]].
      * exists i, ki, ti. split; [lia|]. split; [done|]. split; [done|]. by rewrite Ec.
      * destruct err; revert H; not_in.
      * destruct (IH _ H) as (j & kj & t & ? & ? & ? & ?). exists j, kj, t.
        split; [lia|done].
    + rewrite In_log_cons in H. destruct H as [H|H]; [discriminate|].
      destruct (IH _ H) as (j & kj & t & ? & ? & ? & ?). exists j, kj, t. split; [lia|done].
  - rewrite In_log_cons in H. destruct H as [H|H]; [discriminate|].
    destruct (IH _ H) as (j & kj & t & ? & ? & ? & ?). exists j, kj, t. split; [lia|done].
Qed.

(** C9 (amended): consider the keep at index [idx] of a registry of [n]
    keeps with distinct IDs.  If its opening timestamp, public key, members
    and honest threshold are read successfully, the startup scan, run from
    the newest index down, starts key generation for it exactly when the
    scan stops at none of the newer indices nor at [idx] itself (a keep
    whose opening timestamp plus the lookback is before the current time),
    this node's address is a member, the on-chain public key is empty, and
    no signer is stored for it; in particular not when a signer is stored.
    If any of these reads fails, the keep is skipped: key generation is
    not started for it. *)
Theorem C9_scan_starts_key_generation (se : ScanEnv) (n idx : Z) (k : keep) :
  GetKeepCount se = Ok n -> 0 <= idx < n -> GetKeepAtIndex se idx = Ok k ->
  (forall j kj, 0 <= j < n -> GetKeepAtIndex se j = Ok kj ->
                keepID kj = keepID k -> j = idx) ->
  (forall t pk ms th,
     GetOpenedTimestamp se k = Ok t -> GetPublicKey se k = Ok pk ->
     GetKeepMembers se k = Ok ms -> GetHonestThreshold se k = Ok th ->
     In (EGenerateKeyForKeep (keepID k)) (checkAwaitingKeyGeneration se) <->
     (forall j, idx < j < n -> stopsAt se j = false) /\ stopsAt se idx = false /\
     In (Address se) ms /\ pk = [] /\ HasSigner se (keepID k) = false) /\
  ((exists err, GetOpenedTimestamp se k = Err err) \/
   (exists err, GetPublicKey se k = Err err) \/
   (exists err, GetKeepMembers se k = Err err) \/
   (exists err, GetHonestThreshold se k = Err err) ->
   ~ In (EGenerateKeyForKeep (keepID k)) (checkAwaitingKeyGeneration se)).
Proof.
  intros Hn Hidx Hk Huniq. split.
  - intros t pk ms th Hts Hpk Hmem Hth.
    unfold checkAwaitingKeyGeneration. rewrite Hn.
    rewrite (scanLoop_spec se (Z.to_nat n) (n - 1) idx k t pk ms th);
      [| lia | lia | done | done | done | done | done |].
    + split; intros (Hr & Hrest); split; try done; intros j Hj; apply Hr; lia.
    + intros j kj Hj. apply Huniq. lia.
  - intros Hfail. unfold checkAwaitingKeyGeneration. rewrite Hn. intros H.
    apply scanLoop_origin_check in H as (j & kj & t & Hj & Hkj & Ht & Hc).
    pose proof (checkForKeep_origin se kj _ Hc) as Hid.
    pose proof (Huniq j kj ltac:(lia) Hkj (eq_sym Hid)) as ->.
    rewrite Hk in Hkj. injection Hkj as <-.
    apply checkForKeep_reads in Hc as ([pk Hpk] & [ms Hms] & [th Hth]).
    destruct Hfail as [[? ?]|[[? ?]|[[? ?]|[? ?]]]]; congruence.
Qed.

Lemma exampleScanEnv4_unique (j j' : Z) (kj kj' : keep) :
  0 <= j < 4 -> 0 <= j' < 4 ->
  GetKeepAtIndex exampleScanEnv4 j = Ok kj -> GetKeepAtIndex exampleScanEnv4 j' = Ok kj' ->
  keepID kj = keepID kj' -> j = j'.
Proof.
  intros Hj Hj'.
  assert (Hc : j = 0 \/ j = 1 \/ j = 2 \/ j = 3) by lia.
  assert (Hc' : j' = 0 \/ j' = 1 \/ j' = 2 \/ j' = 3) by lia.
  destruct Hc as [-> | [-> | [-> | ->]]]; destruct Hc' as [-> | [-> | [-> | ->]]];
    intros [= <-] [= <-]; simpl; (reflexivity || discriminate).
Qed.

(** The scan of [exampleScanEnv4]: it starts key generation for the keep
    at index 2, skips the one at index 3 whose members cannot be read, and
    stops at index 1, so neither that keep nor the one at index 0 gets a
    key generation. *)
Lemma C9_witness :
  GetKeepCount exampleScanEnv4 = Ok 4 /\ 0 <= 2 < 4 /\ 0 <= 3 < 4 /\ 0 <= 0 < 4 /\
  In (EGenerateKeyForKeep "0xk2") (checkAwaitingKeyGeneration exampleScanEnv4) /\
  ~ In (EGenerateKeyForKeep "0xk3") (checkAwaitingKeyGeneration exampleScanEnv4) /\
  ~ In (EGenerateKeyForKeep "0xk0") (checkAwaitingKeyGeneration exampleScanEnv4).
Proof.
  assert (Hu : forall idx k, 0 <= idx < 4 -> GetKeepAtIndex exampleScanEnv4 idx = Ok k ->
            forall j kj, 0 <= j < 4 -> GetKeepAtIndex exampleScanEnv4 j = Ok kj ->
                         keepID kj = keepID k -> j = idx)
    by (intros idx k Hidx Hk j kj Hj Hkj; exact (exampleScanEnv4_unique j idx kj k Hj Hidx Hkj Hk)).
  split; [reflexivity|]. split; [lia|]. split; [lia|]. split; [lia|].
  split; [|split].
  - apply (proj1 (C9_scan_starts_key_generation exampleScanEnv4 4 2
                    (mkKeep "0xk2" 1000 [] ["0xop1"; "0xop2"] 2) eq_refl ltac:(lia) eq_refl
                    (Hu 2 _ ltac:(lia) eq_refl))
                 1000 [] ["0xop1"; "0xop2"] 2 eq_refl eq_refl eq_refl eq_refl).
    split; [|split; [reflexivity|split; [left; reflexivity|split; reflexivity]]].
    intros j Hj. assert (j = 3) as -> by lia. reflexivity.
  - apply (proj2 (C9_scan_starts_key_generation exampleScanEnv4 4 3
                    (mkKeep "0xk3" 1100 [] ["0xop1"; "0xop2"] 2) eq_refl ltac:(lia) eq_refl
                    (Hu 3 _ ltac:(lia) eq_refl))).
    right. right. left. eexists. reflexivity.
  - intros H.
    apply (proj1 (C9_scan_starts_key_generation exampleScanEnv4 4 0
                    (mkKeep "0xk0" 900 [] ["0xop1"; "0xop2"] 2) eq_refl ltac:(lia) eq_refl
                    (Hu 0 _ ltac:(lia) eq_refl))
                 900 [] ["0xop1"; "0xop2"] 2 eq_refl eq_refl eq_refl eq_refl) in H
      as (Hr & _).
    specialize (Hr 1 ltac:(lia)). discriminate Hr.
Defined.

(** An announcement whose sender is not a group member leaves the map
    unchanged. *)
Lemma recordMessage_nonmember (memberIDToAddress : MemberID -> res string)
    (members : list MemberID) (m : gmap string recoveryInfo) (msg : announceMessage) :
  ~ In (SenderID msg) members -> recordMessage memberIDToAddress members m msg = m.
Proof.
  induction members as [|mid rest IH]; simpl; [done|]. intros Hn.
  destruct (String.eqb (SenderID msg) mid) eqn:E.
  - apply String.eqb_eq in E. exfalso. apply Hn. by left.
  - apply IH. auto.
Qed.

(** ** The receiving loop and fee selection of [BroadcastRecoveryAddress] *)

Section ExtraBroadcast.

Variable memberIDToAddress : MemberID -> res string.
Variable addr : Type.
Variable DecodeAddress : string -> chainParams -> res addr.
Variable IsForNet : addr -> chainParams -> bool.

Local Abbreviation Validate := (ValidateReceivedBtcAddress addr DecodeAddress IsForNet).
Local Abbreviation record := (recordMessage memberIDToAddress).
Local Abbreviation receive := (receiveLoop memberIDToAddress).
Local Abbreviation coll := (collect addr DecodeAddress IsForNet).
Local Abbreviation Broadcast :=
  (BroadcastRecoveryAddress memberIDToAddress addr DecodeAddress IsForNet).

(** Starting from an empty map, the receiving loop records at most one
    announcement per group member. *)
Lemma receiveLoop_size_le (members : list MemberID) (msgs : list announceMessage) :
  (size (fst (receive members ∅ msgs)) <= length members)%nat.
Proof.
  destruct (receive members ∅ msgs) as [m c] eqn:Er; simpl.
  assert (Hk : keysOfMembers memberIDToAddress members m).
  { eapply receiveLoop_keys; [exact Er|]. intros k Hk.
    rewrite lookup_empty in Hk. by destruct Hk. }
  set (conv := fun x => match memberIDToAddress x with Ok a => Some a | Err _ => None end).
  set (ks := (map_to_list m).*1).
  assert (Hks : length ks = size m)
    by (unfold ks; by rewrite length_fmap, length_map_to_list).
  assert (Hnd : List.NoDup ks) by (apply NoDup_ListNoDup, NoDup_fst_map_to_list).
  assert (Hincl : incl ks (omap conv members)).
  { intros k Hin. apply list_elem_of_In, list_elem_of_fmap in Hin as ([k' ri] & -> & Hin).
    apply elem_of_map_to_list in Hin. destruct (Hk k') as (x & Hx & Ha); [by exists ri|].
    apply list_elem_of_In, list_elem_of_omap. exists x.
    split; [by apply list_elem_of_In|]. unfold conv. by rewrite Ha. }
  pose proof (List.NoDup_incl_length Hnd Hincl).
  pose proof (length_omap_le conv members). unfold omap in *. lia.
Qed.

(** A later announcement from the same sender replaces the earlier one:
    recording both is recording the later alone. *)
Lemma recordMessage_overwrite (members : list MemberID) (m : gmap string recoveryInfo)
    (msg1 msg2 : announceMessage) :
  SenderID msg1 = SenderID msg2 ->
  record members (record members m msg1) msg2 = record members m msg2.
Proof.
  intros Hs. induction members as [|mid rest IH]; simpl; [done|].
  rewrite Hs. destruct (String.eqb (SenderID msg2) mid); [|done].
  destruct (memberIDToAddress mid) as [a|]; [|done].
  simpl. rewrite insert_insert. by rewrite decide_True.
Qed.

(** While the map is not complete, announcements from senders outside the
    group change nothing: the loop gives the same result on the
    announcements of members only. *)
Lemma receiveLoop_ignores_nonmembers (members : list MemberID)
    (m : gmap string recoveryInfo) (msgs : list announceMessage) :
  size m <> length members ->
  receive members m msgs =
  receive members m (List.filter (fun msg => existsb (String.eqb (SenderID msg)) members) msgs).
Proof.
  revert m; induction msgs as [|msg rest IH]; intros m Hm; [done|].
  simpl List.filter.
  destruct (existsb (String.eqb (SenderID msg)) members) eqn:Ex.
  - simpl. destruct (Nat.eqb_spec (size (record members m msg)) (length members)); [done|].
    by apply IH.
  - simpl. rewrite recordMessage_nonmember.
    + apply Nat.eqb_neq in Hm. rewrite Hm. by apply IH; apply Nat.eqb_neq.
    + intros Hin. assert (existsb (String.eqb (SenderID msg)) members = true) as Ht;
        [|congruence].
      apply existsb_exists. exists (SenderID msg). split; [done|apply String.eqb_refl].
Qed.


(** The fee [collect] settles on is at most its start value and every
    entry's fee, and is either the start value or the fee of an entry. *)
Lemma collect_fee (p : chainParams) entries acc fee outs f :
  coll p entries acc fee = inr (outs, f) ->
  f <= fee /\ Forall (fun kv => f <= maxFeePerVByte kv.2) entries /\
  (f = fee \/ exists kv, In kv entries /\ maxFeePerVByte kv.2 = f).
Proof.
  revert acc fee; induction entries as [|[k ri] rest IH]; intros acc fee; simpl.
  - intros [= _ <-]. split; [lia|]. split; [constructor|by left].
  - destruct (Validate (btcRecoveryAddress ri) p); [discriminate|].
    intros H. destruct (IH _ _ H) as (Hle & HF & Hor).
    destruct (Z.ltb_spec (maxFeePerVByte ri) fee) as [Hlt|Hge].
    + split; [lia|]. split; [constructor; [simpl; lia|exact HF]|].
      right. destruct Hor as [->|(kv & Hin & Heq)]; [exists (k, ri); auto|].
      exists kv. auto.
    + split; [lia|]. split; [constructor; [simpl; lia|exact HF]|].
      destruct Hor as [->|(kv & Hin & Heq)]; [by left|right; exists kv; auto].
Qed.

(** A successful broadcast returns sorted addresses, one per recorded
    member and at most one per group member, and the minimum over the
    recorded fees and [MaxInt32]. *)
Theorem BroadcastRecoveryAddress_success (p : chainParams) (members : list MemberID)
    (msgs : list announceMessage) (ended : ctxErr) :
  match snd (Broadcast p members msgs ended) with
  | inr (outs, fee) =>
      Sorted str_le outs /\
      length outs = size (fst (receive members ∅ msgs)) /\
      (length outs <= length members)%nat /\
      fee <= MaxInt32 /\
      map_Forall (fun _ ri => fee <= maxFeePerVByte ri) (fst (receive members ∅ msgs)) /\
      (fee = MaxInt32 \/
       exists k ri, fst (receive members ∅ msgs) !! k = Some ri /\ maxFeePerVByte ri = fee)
  | inl _ => True
  end.
Proof.
  pose proof (receiveLoop_size_le members msgs) as Hsz.
  unfold BroadcastRecoveryAddress in *.
  destruct (receive members ∅ msgs) as [m c]; simpl in *.
  destruct (if c then Canceled else ended); simpl; [|done].
  destruct (coll p (map_to_list m) [] MaxInt32) as [err|[outs f]] eqn:Ec; simpl; [done|].
  pose proof (collect_fee _ _ _ _ _ _ Ec) as (Hle & HF & Hor).
  apply collect_inr in Ec as [_ ->]. simpl.
  assert (Hl : length (sort_Strings (map (fun kv => btcRecoveryAddress kv.2) (map_to_list m)))
               = size m).
  { unfold sort_Strings. rewrite (Permutation_length (merge_sort_Permutation _ _)).
    by rewrite length_map, length_map_to_list. }
  split; [unfold sort_Strings; apply Sorted_merge_sort; apply _|].
  split; [done|]. split; [lia|]. split; [done|]. split.
  - apply map_Forall_to_list. eapply Forall_impl; [exact HF|]. by intros [k ri].
  - destruct Hor as [->|([k ri] & Hin & Heq)]; [by left|right].
    exists k, ri. split; [|done]. by apply elem_of_map_to_list, list_elem_of_In.
Qed.

End ExtraBroadcast.

Lemma recordMessage_overwrite_witness :
  SenderID (mkAnnounce "m1" "A1" 40) = SenderID (mkAnnounce "m1" "B1" 20) /\
  recordMessage exampleMemberIDToAddress ["m1"; "m2"; "m3"]
    (recordMessage exampleMemberIDToAddress ["m1"; "m2"; "m3"] ∅ (mkAnnounce "m1" "A1" 40))
    (mkAnnounce "m1" "B1" 20) =
  recordMessage exampleMemberIDToAddress ["m1"; "m2"; "m3"] ∅ (mkAnnounce "m1" "B1" 20).
Proof.
  split; [reflexivity|].
  apply (recordMessage_overwrite exampleMemberIDToAddress ["m1"; "m2"; "m3"] ∅
           (mkAnnounce "m1" "A1" 40) (mkAnnounce "m1" "B1" 20)).
  reflexivity.
Defined.

Lemma receiveLoop_ignores_nonmembers_witness :
  size (∅ : gmap string recoveryInfo) <> length ["m1"; "m2"; "m3"] /\
  exampleReceive (mkAnnounce "m9" "A9" 1 :: exampleAnnouncements) =
  exampleReceive (List.filter
    (fun msg => existsb (String.eqb (SenderID msg)) ["m1"; "m2"; "m3"])
    (mkAnnounce "m9" "A9" 1 :: exampleAnnouncements)).
Proof.
  split; [vm_compute; lia|].
  apply (receiveLoop_ignores_nonmembers exampleMemberIDToAddress ["m1"; "m2"; "m3"] ∅
           (mkAnnounce "m9" "A9" 1 :: exampleAnnouncements)).
  vm_compute; lia.
Defined.

(** ** Key generation, startup and event handlers of [Initialize] *)

(** Key generation registers the signer only after generating it,
    monitors signing requests only after registering it, and starts the
    closed and terminated monitors together, exactly when the group has
    at least two members, the threshold equals the group size and the
    three earlier steps succeed. *)
Theorem generateKeyForKeep_stages (e : Env) (members : list string) (th : Z) :
  (In ERegisterSigner (fst (generateKeyForKeep e members th)) ->
   exists s, GenerateSignerForKeep e = Ok s) /\
  (In EMonitorSigningRequests (fst (generateKeyForKeep e members th)) ->
   (exists s, GenerateSignerForKeep e = Ok s) /\ RegisterSigner e = Ok tt) /\
  (In EMonitorKeepClosed (fst (generateKeyForKeep e members th)) <->
   (2 <= Z.of_nat (length members))%Z /\ th = Z.of_nat (length members) /\
   (exists s, GenerateSignerForKeep e = Ok s) /\ RegisterSigner e = Ok tt /\
   MonitorSigningRequests e = Ok tt) /\
  (In EMonitorKeepClosed (fst (generateKeyForKeep e members th)) <->
   In EMonitorKeepTerminated (fst (generateKeyForKeep e members th))).
Proof.
  unfold generateKeyForKeep.
  destruct (Z.ltb_spec (Z.of_nat (length members)) 2) as [Hlt|Hge]; simpl.
  { split; [not_in|]. split; [not_in|]. split; [|split; not_in].
    split; [not_in|]. intros (? & _). lia. }
  destruct (Z.eqb_spec th (Z.of_nat (length members))) as [Heq|Hne]; simpl.
  2:{ split; [not_in|]. split; [not_in|]. split; [|split; not_in].
      split; [not_in|]. intros (_ & ? & _). lia. }
  destruct (GenerateSignerForKeep e) as [s|] eqn:Eg; simpl.
  2:{ split; [not_in|]. split; [not_in|]. split; [|split; not_in].
      split; [not_in|]. by intros (_ & _ & [? ?] & _). }
  destruct (RegisterSigner e) as [[]|] eqn:Er; simpl.
  2:{ split; [by exists s|]. split; [not_in|]. split; [|split; not_in].
      split; [not_in|]. by intros (_ & _ & _ & ? & _). }
  destruct (MonitorSigningRequests e) as [[]|] eqn:Em; simpl.
  2:{ split; [by exists s|]. split; [split; [by exists s|done]|].
      split; [|split; not_in]. split; [not_in|]. by intros (_ & _ & _ & _ & ?). }
  split; [by exists s|]. split; [split; [by exists s|done]|].
  split; [split; [intros _; repeat split; [lia|done|by exists s]|intros _; tauto]|].
  split; intros _; tauto.
Qed.

(** The inactivity confirmation always settles and only confirms or logs. *)
Lemma confirmIsInactive_shape (e : Env) :
  exists l b, confirmIsInactive e = (l, Some b) /\
  Forall (fun a => match a with EConfirmed _ _ _ _ | ELog _ _ => True | _ => False end) l.
Proof.
  unfold confirmIsInactive, WaitForBlockConfirmations.
  repeat (split_match; simpl); eexists _, _; (split; [reflexivity|]); repeat constructor.
Qed.

(** The startup goroutine of a registered keep unregisters it exactly when
    the keep is found, inactive and confirmed inactive; it starts the closed
    monitor exactly when the keep is found and active (or not confirmed
    inactive) and a signer is stored and monitoring succeeds; it never both
    unregisters and monitors signing requests. *)
Theorem startupKeepAddress_outcome (e : Env) (getKeepWithID : res unit) :
  (In EUnregisterKeep (fst (startupKeepAddress e getKeepWithID)) <->
   getKeepWithID = Ok tt /\ IsActive e = Ok false /\
   snd (confirmIsInactive e) = Some true) /\
  (In EMonitorKeepClosed (fst (startupKeepAddress e getKeepWithID)) <->
   getKeepWithID = Ok tt /\
   (IsActive e = Ok true \/
    (IsActive e = Ok false /\ snd (confirmIsInactive e) = Some false)) /\
   (exists s, GetSigner e = Ok s) /\ MonitorSigningRequests e = Ok tt) /\
  ~ (In EUnregisterKeep (fst (startupKeepAddress e getKeepWithID)) /\
     In EMonitorSigningRequests (fst (startupKeepAddress e getKeepWithID))).
Proof.
  unfold startupKeepAddress, startupKeep.
  destruct getKeepWithID as [[]|]; simpl.
  2:{ split; [split; [not_in|intuition congruence]|].
      split; [split; [not_in|intros (H & _); discriminate]|]. intros [[H|[]] _]; discriminate. }
  destruct (IsActive e) as [[|]|]; simpl.
  - destruct (GetSigner e) as [s|]; simpl.
    + destruct (MonitorSigningRequests e) as [[]|]; simpl.
      * split; [split; [not_in|intuition congruence]|].
        split; [split; [intros _; repeat split; auto; by exists s|tauto]|].
        intros [H _]. revert H. not_in.
      * split; [split; [not_in|intuition congruence]|].
        split; [split; [not_in|intuition congruence]|].
        intros [H _]. revert H. not_in.
    + split; [split; [not_in|intuition congruence]|].
      split; [split; [not_in|intros (_ & _ & [? ?] & _); congruence]|].
      intros [H _]. revert H. not_in.
  - destruct (confirmIsInactive_shape e) as (l & b & Ec & HF).
    rewrite Ec. rewrite List.Forall_forall in HF. simpl.
    assert (H1 : ~ In EUnregisterKeep l) by (intros H; apply (HF _ H)).
    assert (H2 : ~ In EMonitorKeepClosed l) by (intros H; apply (HF _ H)).
    assert (H3 : ~ In EMonitorSigningRequests l) by (intros H; apply (HF _ H)).
    destruct b; simpl; [|destruct (GetSigner e) as [s|]; simpl;
                         [destruct (MonitorSigningRequests e) as [[]|]; simpl|]];
    rewrite ?in_app_iff; simpl; intuition (try discriminate; try congruence; eauto; match goal with H : ex _ |- _ => destruct H; congruence end).
  - split; [split; [not_in|intros (_ & H & _); discriminate]|].
    split; [split; [not_in|intros (_ & [H|[H _]] & _); discriminate]|].
    intros [[H|[]] _]; discriminate.
Qed.

(** Key generation generates a signer exactly when the group checks pass. *)
Lemma generateKeyForKeep_signer (e : Env) (members : list string) (th : Z) :
  In EGenerateSigner (fst (generateKeyForKeep e members th)) <->
  (2 <= Z.of_nat (length members))%Z /\ th = Z.of_nat (length members).
Proof.
  unfold generateKeyForKeep.
  destruct (Z.ltb_spec (Z.of_nat (length members)) 2) as [Hlt|Hge]; simpl;
    [split; [not_in|lia]|].
  destruct (Z.eqb_spec th (Z.of_nat (length members))) as [Heq|Hne]; simpl;
    [|split; [not_in|lia]].
  split; [intros _; split; lia|intros _]. repeat (split_match; simpl); right; by left.
Qed.

(** Handler steps that are trace events. *)
Lemma In_map_KAct (a : event) (l : list event) :
  In (KAct a) (map KAct l) <-> In a l.
Proof.
  rewrite in_map_iff. split; [intros (x & Hx & Hin); by injection Hx as ->|].
  intros Hin. by exists a.
Qed.

(** The completion marker is not a trace event. *)
Lemma KKeyGenCompleted_not_in_map (l : list event) : ~ In KKeyGenCompleted (map KAct l).
Proof. rewrite in_map_iff. by intros (x & Hx & _). Qed.

(** The keep-created handler marks key generation completed exactly when
    this node is a member and the deduplicator lets it handle the keep, and
    then as its last step only.  It generates a signer exactly when, in
    addition, the keep lookup succeeds and the group checks pass; a failed
    lookup panics on the nil handle instead. *)
Theorem onBondedECDSAKeepCreated_completion (e : Env) (isMember shouldHandle : bool)
    (getKeepWithID : res unit) (members : list string) (th : Z) :
  (In KKeyGenCompleted
     (onBondedECDSAKeepCreated e isMember shouldHandle getKeepWithID members th) <->
   isMember = true /\ shouldHandle = true) /\
  (In KKeyGenCompleted
     (onBondedECDSAKeepCreated e isMember shouldHandle getKeepWithID members th) ->
   exists l, onBondedECDSAKeepCreated e isMember shouldHandle getKeepWithID members th =
             l ++ [KKeyGenCompleted] /\ ~ In KKeyGenCompleted l) /\
  (In (KAct EGenerateSigner)
     (onBondedECDSAKeepCreated e isMember shouldHandle getKeepWithID members th) <->
   isMember = true /\ shouldHandle = true /\ getKeepWithID = Ok tt /\
   (2 <= Z.of_nat (length members))%Z /\ th = Z.of_nat (length members)) /\
  (In (KAct (EPanic nilHandlePanic))
     (onBondedECDSAKeepCreated e isMember shouldHandle getKeepWithID members th) <->
   isMember = true /\ shouldHandle = true /\ exists err, getKeepWithID = Err err).
Proof.
  unfold onBondedECDSAKeepCreated.
  destruct isMember; simpl;
    [|split; [|split; [|split]]; intuition (try discriminate);
      match goal with H : _ \/ False |- _ => destruct H as [H|[]]; discriminate end].
  destruct shouldHandle; simpl;
    [|split; [|split; [|split]]; intuition (try discriminate);
      match goal with H : _ \/ False |- _ => destruct H as [H|[]]; discriminate end].
  destruct getKeepWithID as [[]|err]; simpl.
  - pose proof (KKeyGenCompleted_not_in_map (fst (generateKeyForKeep e members th))) as Hn.
    split; [split; [done|intros _; right; rewrite in_app_iff; right; by left]|].
    split.
    + intros _. eexists (KAct (ELog Info "new keep created") :: _). split; [reflexivity|].
      intros [H|H]; [discriminate|]. by apply Hn.
    + split.
      * rewrite <- (generateKeyForKeep_signer e members th).
        split; [|intros (_ & _ & _ & H); right; rewrite in_app_iff; left;
                 by apply In_map_KAct].
        intros [H|H]; [discriminate|]. rewrite in_app_iff in H.
        destruct H as [H|[H|[]]]; [|discriminate].
        apply In_map_KAct in H. auto.
      * split; [|intros (_ & _ & ? & ?); discriminate].
        intros [H|H]; [discriminate|]. rewrite in_app_iff in H.
        destruct H as [H|[H|[]]]; [|discriminate].
        apply In_map_KAct in H. revert H. unfold generateKeyForKeep.
        repeat (split_match; simpl); not_in.
  - split; [split; [done|intros _; right; right; by left]|].
    split; [intros _; exists [KAct (ELog Info "new keep created"); KAct (EPanic nilHandlePanic)];
            split; [reflexivity|not_in]|].
    split; [split; [not_in|intros (_ & _ & ? & _); discriminate]|].
    split; [intros _; split; [done|split; [done|by exists err]]|intros _; right; by left].
Qed.

(** The signing-request operation marks signing of [d] completed, and no
    other digest, exactly when the deduplicator lets it start, and then as
    its last step only. *)
Theorem signingRequestOp_completion (e : Env) (d : Digest) (b : Z) :
  (forall d', In (ESigningCompleted d') (fst (signingRequestOp e d b)) <->
     d' = d /\ NotifySigningStarted e d = Ok true) /\
  (NotifySigningStarted e d = Ok true ->
   exists l, fst (signingRequestOp e d b) = l ++ [ESigningCompleted d] /\
             forall d', ~ In (ESigningCompleted d') l).
Proof.
  unfold signingRequestOp, WaitForBlockConfirmations.
  destruct (NotifySigningStarted e d) as [[|]|] eqn:En; simpl;
    [|split; [intros d'; split; [not_in|intros [_ H]; discriminate]|discriminate]..].
  split; [|intros _; eexists; split; [reflexivity|]]; intros d';
    repeat (split_match; simpl); rewrite ?in_app_iff; simpl; intuition congruence.
Qed.

(** The same for the startup check of a pending signature request. *)
Theorem awaitingSignatureOp_completion (e : Env) (d : Digest) :
  (forall d', In (ESigningCompleted d') (fst (awaitingSignatureOp e d)) <->
     d' = d /\ NotifySigningStarted e d = Ok true) /\
  (NotifySigningStarted e d = Ok true ->
   exists l, fst (awaitingSignatureOp e d) = l ++ [ESigningCompleted d] /\
             forall d', ~ In (ESigningCompleted d') l).
Proof.
  unfold awaitingSignatureOp, WaitForBlockConfirmations.
  destruct (NotifySigningStarted e d) as [[|]|] eqn:En; simpl;
    [|split; [intros d'; split; [not_in|intros [_ H]; discriminate]|discriminate]..].
  split; [|intros _; eexists; split; [reflexivity|]]; intros d';
    repeat (split_match; simpl); rewrite ?in_app_iff; simpl; intuition congruence.
Qed.

(** The recovery never marks termination completed by itself. *)
Lemma liquidationRecovery_no_completion (e : Env) :
  ~ In ETerminatingCompleted (fst (liquidationRecovery e)).
Proof.
  unfold liquidationRecovery.
  repeat (try rewrite deriveAll_spec; split_match; simpl); not_in.
Qed.

(** The keep-closed and keep-terminated handlers mark their handling
    completed exactly when the deduplicator lets them start, and then as
    their last step only. *)
Theorem keep_event_handlers_completion (e : Env) (b : Z) :
  (In EClosingCompleted (onKeepClosed e b) <-> NotifyClosingStarted e = true) /\
  (NotifyClosingStarted e = true ->
   exists l, onKeepClosed e b = l ++ [EClosingCompleted] /\ ~ In EClosingCompleted l) /\
  (In ETerminatingCompleted (onKeepTerminated e b) <-> NotifyTerminatingStarted e = true) /\
  (NotifyTerminatingStarted e = true ->
   exists l, onKeepTerminated e b = l ++ [ETerminatingCompleted] /\
             ~ In ETerminatingCompleted l).
Proof.
  pose proof (liquidationRecovery_no_completion e) as Hl.
  unfold onKeepClosed, onKeepTerminated, defer.
  split; [|split; [|split]].
  - destruct (NotifyClosingStarted e); simpl; [|split; [not_in|discriminate]].
    split; [done|intros _]. rewrite in_app_iff. right. by left.
  - destruct (NotifyClosingStarted e); simpl; [|discriminate].
    intros _. eexists. split; [reflexivity|].
    unfold keepClosedBody, WaitForBlockConfirmations.
    repeat (split_match; simpl); not_in.
  - destruct (NotifyTerminatingStarted e); simpl; [|split; [not_in|discriminate]].
    split; [done|intros _]. rewrite in_app_iff. right. by left.
  - destruct (NotifyTerminatingStarted e); simpl; [|discriminate].
    intros _. eexists. split; [reflexivity|].
    unfold keepTerminatedBody, WaitForBlockConfirmations.
    repeat (split_match; simpl); try not_in.
    all: destruct (liquidationRecovery e) as [l [[]|]]; simpl in *;
      rewrite ?in_app_iff; simpl; intuition congruence.
Qed.

(** [signalled] holds when some handler run signalled the keep channel. *)
Lemma signalled_spec (runs : list (list event)) :
  signalled runs = true <-> exists tr, In tr runs /\ In EKeepChannelSignal tr.
Proof.
  unfold signalled. rewrite existsb_exists. split.
  - intros (tr & Hin & Hs). apply existsb_exists in Hs as (a & Ha & Hs).
    exists tr. split; [done|]. by destruct a.
  - intros (tr & Hin & Hs). exists tr. split; [done|].
    apply existsb_exists. by exists EKeepChannelSignal.
Qed.

(** A closed handler that signals has unregistered the confirmed-inactive keep. *)
Lemma onKeepClosed_signal (e : Env) (b : Z) :
  In EKeepChannelSignal (onKeepClosed e b) ->
  In EUnregisterKeep (onKeepClosed e b) /\
  In (EConfirmed b (b + blockConfirmations) PIsActive false) (onKeepClosed e b).
Proof.
  unfold onKeepClosed, keepClosedBody, defer, WaitForBlockConfirmations.
  repeat (split_match; simpl); intuition congruence.
Qed.

(** The closed-event monitor unsubscribes exactly when its subscription
    succeeded and some handler run signalled, and a run signals only after
    unregistering the keep, once its inactivity was confirmed at least 12
    blocks past the event. *)
Theorem monitorKeepClosedEvents_unsubscribe (subscribe : res unit) (evs : list (Env * Z)) :
  ((exists acts, monitorKeepClosedEvents subscribe (map (fun eb => onKeepClosed eb.1 eb.2) evs)
                 = Some acts /\ In MUnsubscribeSignatureRequested acts) <->
   (exists u, subscribe = Ok u) /\
   exists e b, In (e, b) evs /\ In EKeepChannelSignal (onKeepClosed e b)) /\
  (forall e b, In EKeepChannelSignal (onKeepClosed e b) ->
   In EUnregisterKeep (onKeepClosed e b) /\
   exists h, b + 12 <= h /\ In (EConfirmed b h PIsActive false) (onKeepClosed e b)).
Proof.
  split.
  - unfold monitorKeepClosedEvents.
    destruct subscribe as [u|err].
    + destruct (signalled _) eqn:Es.
      * apply signalled_spec in Es as (tr & Hin & Hs).
        apply in_map_iff in Hin as ([e b] & <- & Hin).
        split; [intros _; split; [by exists u|by exists e, b]|].
        intros _. eexists. split; [reflexivity|]. simpl; auto.
      * split; [by intros (acts & ? & _)|]. intros (_ & e & b & Hin & Hs).
        assert (signalled (map (fun eb => onKeepClosed eb.1 eb.2) evs) = true) as Ht;
          [|congruence].
        apply signalled_spec. exists (onKeepClosed e b). split; [|done].
        apply in_map_iff. by exists (e, b).
    + split; [intros (acts & [= <-] & H); simpl in H; intuition discriminate|].
      by intros [(u & ?) _].
  - intros e b Hs. destruct (onKeepClosed_signal e b Hs) as [Hu Hc].
    split; [done|]. exists (b + blockConfirmations). split; [unfold blockConfirmations; lia|done].
Qed.

(** A recovery that runs to its end has asked for the unsigned transaction. *)
Lemma liquidationRecovery_done_construct (e : Env) :
  snd (liquidationRecovery e) = Some tt ->
  exists ph pi pv fee outs,
    In (EConstructUnsignedTransaction ph pi pv fee outs) (fst (liquidationRecovery e)).
Proof.
  unfold liquidationRecovery.
  repeat (try rewrite deriveAll_spec; split_match; simpl); try discriminate.
  all: intros _; do 5 eexists; rewrite ?in_app_iff; simpl; left; reflexivity.
Qed.

(** The recovery never signals the keep channel by itself. *)
Lemma liquidationRecovery_no_signal (e : Env) :
  ~ In EKeepChannelSignal (fst (liquidationRecovery e)).
Proof.
  unfold liquidationRecovery.
  repeat (try rewrite deriveAll_spec; split_match; simpl); not_in.
Qed.

(** A terminated handler that signals has unregistered the confirmed
    inactive keep and asked for the unsigned transaction. *)
Lemma onKeepTerminated_signal (e : Env) (b : Z) :
  In EKeepChannelSignal (onKeepTerminated e b) ->
  In EUnregisterKeep (onKeepTerminated e b) /\
  In (EConfirmed b (b + blockConfirmations) PIsActive false) (onKeepTerminated e b) /\
  exists ph pi pv fee outs,
    In (EConstructUnsignedTransaction ph pi pv fee outs) (onKeepTerminated e b).
Proof.
  pose proof (liquidationRecovery_done_construct e) as Hc.
  unfold onKeepTerminated, keepTerminatedBody, defer, WaitForBlockConfirmations.
  repeat (split_match; simpl); try (intuition congruence; fail).
  all: pose proof (liquidationRecovery_no_signal e) as Hn;
    destruct (liquidationRecovery e) as [l [[]|]]; simpl in *; rewrite ?in_app_iff; simpl;
    [|intuition congruence].
  destruct (Hc eq_refl) as (ph & pi & pv & fee & outs & H).
  intros _. split; [auto|]. split; [auto|].
  exists ph, pi, pv, fee, outs. rewrite !in_app_iff. auto.
Qed.

(** The terminated-event monitor unsubscribes exactly when its
    subscription succeeded and some handler run signalled, and a run
    signals only after a confirmed inactivity, a transaction construction
    request and unregistering the keep. *)
Theorem monitorKeepTerminatedEvent_unsubscribe (subscribe : res unit)
    (evs : list (Env * Z)) :
  ((exists acts,
      monitorKeepTerminatedEvent subscribe (map (fun eb => onKeepTerminated eb.1 eb.2) evs)
        = Some acts /\ In MUnsubscribeSignatureRequested acts) <->
   (exists u, subscribe = Ok u) /\
   exists e b, In (e, b) evs /\ In EKeepChannelSignal (onKeepTerminated e b)) /\
  (forall e b, In EKeepChannelSignal (onKeepTerminated e b) ->
   In EUnregisterKeep (onKeepTerminated e b) /\
   (exists h, b + 12 <= h /\ In (EConfirmed b h PIsActive false) (onKeepTerminated e b)) /\
   exists ph pi pv fee outs,
     In (EConstructUnsignedTransaction ph pi pv fee outs) (onKeepTerminated e b)).
Proof.
  split.
  - unfold monitorKeepTerminatedEvent.
    destruct subscribe as [u|err].
    + destruct (signalled _) eqn:Es.
      * apply signalled_spec in Es as (tr & Hin & Hs).
        apply in_map_iff in Hin as ([e b] & <- & Hin).
        split; [intros _; split; [by exists u|by exists e, b]|].
        intros _. eexists. split; [reflexivity|]. simpl; auto.
      * split; [by intros (acts & ? & _)|]. intros (_ & e & b & Hin & Hs).
        assert (signalled (map (fun eb => onKeepTerminated eb.1 eb.2) evs) = true) as Ht;
          [|congruence].
        apply signalled_spec. exists (onKeepTerminated e b). split; [|done].
        apply in_map_iff. by exists (e, b).
    + split; [intros (acts & [= <-] & H); simpl in H; intuition discriminate|].
      by intros [(u & ?) _].
  - intros e b Hs. destruct (onKeepTerminated_signal e b Hs) as (Hu & Hc & Hx).
    split; [done|]. split; [|done].
    exists (b + blockConfirmations). split; [unfold blockConfirmations; lia|done].
Qed.

(** With no recovery information received, the recovery stops at once. *)
Lemma liquidationRecovery_empty (e : Env) :
  (forall ids, BroadcastRecoveryInfos e ids = Ok []) ->
  liquidationRecovery e =
  match AnnounceSignerPresence e (match GetMembers e with Ok ms => ms | Err _ => [] end) with
  | Ok _ => ([EPanic "index out of range [0] with length 0"], None)
  | Err _ => ([ELog Error "failed to retrieve member ids on keep termination"], None)
  end.
Proof.
  intros H. unfold liquidationRecovery.
  destruct (AnnounceSignerPresence e _) as [ids|]; simpl; [|done].
  by rewrite H.
Qed.

(** When no recovery information arrives, the terminated handler never
    unregisters, signals or builds a transaction; it panics on
    [recoveryInfos[0]] exactly when it got that far, and the panic is then
    followed only by the deferred completion. *)
Theorem onKeepTerminated_empty_recovery_infos (e : Env) (b : Z) :
  (forall ids, BroadcastRecoveryInfos e ids = Ok []) ->
  ~ In EUnregisterKeep (onKeepTerminated e b) /\
  ~ In EKeepChannelSignal (onKeepTerminated e b) /\
  (forall ph pi pv fee outs,
     ~ In (EConstructUnsignedTransaction ph pi pv fee outs) (onKeepTerminated e b)) /\
  (In (EPanic "index out of range [0] with length 0") (onKeepTerminated e b) <->
   NotifyTerminatingStarted e = true /\
   WaitForBlockHeight e (b + blockConfirmations) = Ok tt /\
   IsActiveAt e (b + blockConfirmations) = Ok false /\
   exists ids, AnnounceSignerPresence e
                 (match GetMembers e with Ok ms => ms | Err _ => [] end) = Ok ids) /\
  (In (EPanic "index out of range [0] with length 0") (onKeepTerminated e b) ->
   exists l, onKeepTerminated e b =
             l ++ [EPanic "index out of range [0] with length 0"; ETerminatingCompleted]).
Proof.
  intros H. unfold onKeepTerminated, keepTerminatedBody, defer, WaitForBlockConfirmations.
  rewrite (liquidationRecovery_empty e H).
  destruct (NotifyTerminatingStarted e); simpl; [|intuition congruence].
  destruct (WaitForBlockHeight e (b + blockConfirmations)) as [[]|]; simpl;
    [|intuition congruence].
  destruct (IsActiveAt e (b + blockConfirmations)) as [[|]|]; simpl;
    [intuition congruence| |intuition congruence].
  destruct (AnnounceSignerPresence e _) as [ids|]; simpl.
  - split; [intuition congruence|]. split; [intuition congruence|].
    split; [intuition congruence|]. split; [split; [intros _; eauto 10|auto]|].
    intros _. eexists [EConfirmed b (b + blockConfirmations) PIsActive false]. reflexivity.
  - split; [intuition congruence|]. split; [intuition congruence|].
    split; [intuition congruence|]. split; [|intuition congruence].
    split; [intuition congruence|]. intros (_ & _ & _ & ? & ?). congruence.
Qed.

Lemma filter_keyGenFor_nil (x : string) (l : list event) :
  ~ In (EGenerateKeyForKeep x) l -> List.filter (isKeyGenFor x) l = [].
Proof.
  induction l as [|a rest IH]; simpl; [done|]. intros Hn.
  destruct a; simpl; try (apply IH; tauto).
  match goal with |- context [String.eqb ?y x] =>
    destruct (String.eqb_spec y x) as [->|Hne] end; [tauto|].
  apply IH. tauto.
Qed.

(** The check of one keep starts key generation at most once. *)
Lemma checkForKeep_keygen_once (se : ScanEnv) (k : keep) (x : string) :
  (length (List.filter (isKeyGenFor x) (fst (checkAwaitingKeyGenerationForKeep se k))) <= 1)%nat.
Proof.
  unfold checkAwaitingKeyGenerationForKeep.
  repeat (split_match; simpl); try destruct (String.eqb _ x); simpl; lia.
Qed.

(** For distinct keep IDs, the scan starts key generation at most once per
    keep. *)
Lemma scanLoop_keygen_once (se : ScanEnv) (fuel : nat) (i : Z) (x : string) :
  (forall j j' kj kj', 0 <= j <= i -> 0 <= j' <= i ->
     GetKeepAtIndex se j = Ok kj -> GetKeepAtIndex se j' = Ok kj' ->
     keepID kj = keepID kj' -> j = j') ->
  (length (List.filter (isKeyGenFor x) (scanLoop se fuel i)) <= 1)%nat.
Proof.
  revert i; induction fuel as [|f IH]; intros i Hu; simpl; [lia|].
  assert (IH' : (length (List.filter (isKeyGenFor x) (scanLoop se f (i - 1))) <= 1)%nat).
  { apply IH. intros j j' kj kj' Hj Hj'. apply Hu; lia. }
  destruct (i <? 0); simpl; [lia|].
  destruct (GetKeepAtIndex se i) as [ki|] eqn:Eki; simpl; [|exact IH'].
  destruct (GetOpenedTimestamp se ki) as [ti|]; simpl; [|exact IH'].
  destruct (_ <? _); simpl; [lia|].
  pose proof (checkForKeep_keygen_once se ki x) as Hk.
  pose proof (checkForKeep_origin se ki x) as Ho.
  destruct (checkAwaitingKeyGenerationForKeep se ki) as [tr err]; simpl in *.
  rewrite !List.filter_app, !length_app.
  assert (Hw : List.filter (isKeyGenFor x)
                 match err with
                 | Some _ => [ELog Warning "could not check awaiting key generation for keep"]
                 | None => []
                 end = []) by (destruct err; reflexivity).
  rewrite Hw. simpl.
  destruct (List.filter (isKeyGenFor x) tr) as [|a l] eqn:Ef; simpl; [exact IH'|].
  assert (Hin : In (EGenerateKeyForKeep x) tr).
  { assert (Ha : In a (List.filter (isKeyGenFor x) tr)) by (rewrite Ef; by left).
    apply filter_In in Ha as [Ha Hf].
    destruct a; try discriminate. simpl in Hf. apply String.eqb_eq in Hf. by subst. }
  rewrite (filter_keyGenFor_nil x (scanLoop se f (i - 1))); [simpl in *; lia|].
  intros H. apply scanLoop_origin in H as (j & kj & Hj & Hkj & Hid).
  rewrite (Ho Hin) in Hid. pose proof (Hu j i kj ki ltac:(lia) ltac:(lia) Hkj Eki Hid). lia.
Qed.

(** When the keeps of the factory have distinct IDs, the startup scan
    starts key generation at most once for each of them. *)
Theorem checkAwaitingKeyGeneration_once_per_keep (se : ScanEnv) (n : Z) :
  GetKeepCount se = Ok n ->
  (forall j j' kj kj', 0 <= j < n -> 0 <= j' < n ->
     GetKeepAtIndex se j = Ok kj -> GetKeepAtIndex se j' = Ok kj' ->
     keepID kj = keepID kj' -> j = j') ->
  forall x, (length (List.filter (isKeyGenFor x) (checkAwaitingKeyGeneration se)) <= 1)%nat.
Proof.
  intros Hn Hu x. unfold checkAwaitingKeyGeneration. rewrite Hn.
  apply scanLoop_keygen_once. intros j j' kj kj' Hj Hj'. apply Hu; lia.
Qed.

(** ** The Go library decoders used by the recovery handler *)

(** [|] keeps a value within 64 bits. *)
Lemma lor_lt_pow64 (a b : Z) :
  0 <= a < 2 ^ 64 -> 0 <= b < 2 ^ 64 -> 0 <= Z.lor a b < 2 ^ 64.
Proof.
  intros Ha Hb. split; [apply Z.lor_nonneg; lia|].
  destruct (Z.eq_dec (Z.lor a b) 0) as [->|Hn]; [lia|].
  assert (0 <= Z.lor a b) by (apply Z.lor_nonneg; lia).
  apply Z.log2_lt_pow2; [lia|]. rewrite Z.log2_lor by lia.
  apply Z.max_lub_lt.
  - destruct (Z.eq_dec a 0) as [->|]; [done|]. apply Z.log2_lt_pow2; lia.
  - destruct (Z.eq_dec b 0) as [->|]; [done|]. apply Z.log2_lt_pow2; lia.
Qed.

(** The invariants of the [Uvarint] loop from byte [i] on. *)
Lemma uvarintLoop_spec (buf : list Z) (i x s : Z) :
  0 <= i -> 0 <= x < 2 ^ 64 ->
  (snd (uvarintLoop buf i x s) = 0 <-> Forall (fun b => 128 <= b) buf) /\
  (0 < snd (uvarintLoop buf i x s) ->
   i < snd (uvarintLoop buf i x s) <= 10 /\
   snd (uvarintLoop buf i x s) <= i + Z.of_nat (length buf)) /\
  (snd (uvarintLoop buf i x s) <= 0 -> fst (uvarintLoop buf i x s) = 0) /\
  0 <= fst (uvarintLoop buf i x s) < 2 ^ 64.
Proof.
  revert i x s; induction buf as [|b rest IH]; intros i x s Hi Hx; simpl.
  - split; [split; [constructor|done]|]. split; [lia|]. split; [done|lia].
  - destruct (Z.ltb_spec b 128) as [Hlt|Hge].
    + destruct ((i >? 9) || ((i =? 9) && (b >? 1))) eqn:Eo; simpl.
      * split; [split; [lia|intros HF; inversion HF; lia]|]. split; [lia|]. split; [done|lia].
      * assert (Hle : i <= 9) by (destruct (Z.gtb_spec i 9); simpl in Eo; [discriminate|lia]).
        split; [split; [lia|intros HF; inversion HF; lia]|].
        split; [lia|]. split; [lia|].
        apply lor_lt_pow64; [done|]. apply Z.mod_pos_bound. lia.
    + assert (Hx' : 0 <= Z.lor x (Z.shiftl (Z.land b 127) s mod 2 ^ 64) < 2 ^ 64)
        by (apply lor_lt_pow64; [done|apply Z.mod_pos_bound; lia]).
      destruct (IH (i + 1) _ (s + 7) ltac:(lia) Hx') as (H0 & Hpos & Hneg & Hv).
      split; [rewrite H0; split; [intros HF; by constructor|by intros HF; inversion HF]|].
      split; [intros Hp; destruct (Hpos Hp); lia|]. split; [done|done].
Qed.

(** [Uvarint] reports 0 bytes read exactly when no byte ends the number,
    a positive count of at most 10 and at most the buffer length on
    success, the value 0 on overflow, and a 64-bit unsigned value;
    [Varint] reads the same bytes and returns a 64-bit signed value. *)
Theorem Uvarint_Varint_bytes_read (buf : list Z) :
  (snd (Uvarint buf) = 0 <-> Forall (fun b => 128 <= b) buf) /\
  (0 < snd (Uvarint buf) ->
   snd (Uvarint buf) <= 10 /\ snd (Uvarint buf) <= Z.of_nat (length buf)) /\
  (snd (Uvarint buf) < 0 -> fst (Uvarint buf) = 0) /\
  0 <= fst (Uvarint buf) < 2 ^ 64 /\
  snd (Varint buf) = snd (Uvarint buf) /\
  - 2 ^ 63 <= fst (Varint buf) < 2 ^ 63.
Proof.
  destruct (uvarintLoop_spec buf 0 0 0 ltac:(lia) ltac:(lia)) as (H0 & Hpos & Hneg & Hv).
  unfold Varint, Uvarint in *.
  destruct (uvarintLoop buf 0 0 0) as [ux n]; simpl in *.
  split; [done|]. split; [intros Hp; destruct (Hpos Hp); lia|].
  split; [intros Hn; apply Hneg; lia|]. split; [done|]. split; [done|].
  assert (Hs : 0 <= Z.shiftr ux 1 < 2 ^ 63).
  { rewrite Z.shiftr_div_pow2 by lia. split; [apply Z.div_pos; lia|].
    apply Z.div_lt_upper_bound; [lia|]. replace (2 ^ 1 * 2 ^ 63) with (2 ^ 64) by reflexivity. lia. }
  set (x := Z.shiftr ux 1) in *. assert (Hp : 2 ^ 63 = 9223372036854775808) by reflexivity. rewrite Hp in *. destruct (Z.odd ux); lia.
Qed.

(** A nibble is encoded as a lowercase hex digit. *)
Lemma hexDigit_hex (n : Z) :
  0 <= n < 16 -> In (hexDigit n) (list_ascii_of_string "0123456789abcdef").
Proof.
  intros Hn.
  assert (Hall : forallb (fun k => existsb (Ascii.eqb (hexDigit (Z.of_nat k)))
                                     (list_ascii_of_string "0123456789abcdef"))
                   (seq 0 16) = true) by reflexivity.
  rewrite forallb_forall in Hall.
  specialize (Hall (Z.to_nat n) ltac:(apply in_seq; lia)).
  rewrite Z2Nat.id in Hall by lia.
  apply existsb_exists in Hall as (c & Hin & Hc).
  apply Ascii.eqb_eq in Hc. by rewrite Hc.
Qed.

(** [hex.EncodeToString] gives two characters per byte, and only
    lowercase hex digits for bytes. *)
Theorem EncodeToString_hex (bs : list Z) :
  String.length (EncodeToString bs) = (2 * length bs)%nat /\
  (Forall (fun b => 0 <= b < 256) bs ->
   Forall (fun c => In c (list_ascii_of_string "0123456789abcdef"))
     (list_ascii_of_string (EncodeToString bs))).
Proof.
  induction bs as [|b rest [IHl IHh]]; simpl; [split; [done|constructor]|].
  split; [lia|]. intros HF. inversion HF as [|? ? Hb Hr]; subst.
  constructor; [apply hexDigit_hex; split; [apply Z.div_pos; lia|apply Z.div_lt_upper_bound; lia]|].
  constructor; [apply hexDigit_hex; apply Z.mod_pos_bound; lia|].
  by apply IHh.
Qed.

(** [|] of a value below [2^k] and a value shifted by [k] is their sum. *)
Lemma lor_low_shiftl (a c k : Z) :
  0 <= k -> 0 <= a < 2 ^ k -> Z.lor a (Z.shiftl c k) = a + c * 2 ^ k.
Proof.
  intros Hk Ha.
  assert (Hl : Z.land a (Z.shiftl c k) = 0).
  { apply Z.bits_inj'. intros n Hn. rewrite Z.land_spec, Z.bits_0.
    destruct (Z.lt_ge_cases n k).
    - rewrite Z.shiftl_spec_low by lia. apply andb_false_r.
    - rewrite <- (Z.mod_small a (2 ^ k)) by lia.
      rewrite Z.mod_pow2_bits_high by lia. done. }
  rewrite <- Z.lxor_lor by done. rewrite <- Z.add_nocarry_lxor by done.
  by rewrite Z.shiftl_mul_pow2.
Qed.

(** [LittleEndian.Uint32] of four bytes is their little-endian value, a
    32-bit unsigned integer. *)
Theorem LittleEndianUint32_value (b0 b1 b2 b3 : Z) (rest : list Z) :
  0 <= b0 < 256 -> 0 <= b1 < 256 -> 0 <= b2 < 256 -> 0 <= b3 < 256 ->
  LittleEndianUint32 (b0 :: b1 :: b2 :: b3 :: rest) =
    b0 + 256 * b1 + 65536 * b2 + 16777216 * b3 /\
  0 <= LittleEndianUint32 (b0 :: b1 :: b2 :: b3 :: rest) < 2 ^ 32.
Proof.
  intros H0 H1 H2 H3. unfold LittleEndianUint32; simpl nth.
  replace (Z.lor (Z.shiftl b2 16) (Z.shiftl b3 24))
    with (Z.shiftl (Z.lor b2 (Z.shiftl b3 8)) 16)
    by (rewrite Z.shiftl_lor, Z.shiftl_shiftl by lia; reflexivity).
  replace (Z.lor (Z.shiftl b1 8) (Z.shiftl (Z.lor b2 (Z.shiftl b3 8)) 16))
    with (Z.shiftl (Z.lor b1 (Z.shiftl (Z.lor b2 (Z.shiftl b3 8)) 8)) 8)
    by (rewrite Z.shiftl_lor, Z.shiftl_shiftl by lia; reflexivity).
  rewrite (lor_low_shiftl b2 b3 8) by (simpl; lia).
  rewrite (lor_low_shiftl b1 _ 8) by (simpl; lia).
  rewrite (lor_low_shiftl b0 _ 8) by (simpl; lia).
  simpl. split; lia.
Qed.

Lemma onKeepTerminated_empty_recovery_infos_witness :
  (forall ids, BroadcastRecoveryInfos exampleEnvNoInfos ids = Ok []) /\
  In (EPanic "index out of range [0] with length 0") (onKeepTerminated exampleEnvNoInfos 150).
Proof.
  assert (H : forall ids, BroadcastRecoveryInfos exampleEnvNoInfos ids = Ok [])
    by (intros ids; reflexivity).
  split; [exact H|].
  apply (onKeepTerminated_empty_recovery_infos exampleEnvNoInfos 150 H).
  split; [reflexivity|]. split; [reflexivity|]. split; [reflexivity|].
  eexists. reflexivity.
Defined.

Lemma LittleEndianUint32_value_witness :
  (0 <= 1 < 256 /\ 0 <= 2 < 256 /\ 0 <= 3 < 256 /\ 0 <= 4 < 256) /\
  LittleEndianUint32 [1; 2; 3; 4] = 1 + 256 * 2 + 65536 * 3 + 16777216 * 4.
Proof.
  split; [lia|].
  apply (LittleEndianUint32_value 1 2 3 4 []); lia.
Defined.

Lemma checkAwaitingKeyGeneration_once_per_keep_witness :
  GetKeepCount exampleScanEnv4 = Ok 4 /\
  (length (List.filter (isKeyGenFor "0xk2") (checkAwaitingKeyGeneration exampleScanEnv4))
     <= 1)%nat.
Proof.
  split; [reflexivity|].
  apply (checkAwaitingKeyGeneration_once_per_keep exampleScanEnv4 4 eq_refl).
  intros j j' kj kj' Hj Hj' Hkj Hkj' Hid.
  exact (exampleScanEnv4_unique j j' kj kj' Hj Hj' Hkj Hkj' Hid).
Defined.
